(** * Conference mapper: the room-code allocator and its mapping table

    A shallow embedding of [daemon.py]: the [ConferenceMaps] class (a table
    [conferences (id, jid, created_time)] behind one SQLite connection) and
    the [API.do_GET] request handler, followed by the properties of the
    allocator, of the table and of the handler. *)

From Stdlib Require Import ZArith Lia List Ascii String.
From stdpp Require Import base option list strings gmap.

Local Open Scope Z_scope.

(** ** Module constants ([daemon.py], lines 10-16) *)

Definition EXPIRE_SECONDS : Z := 60 * 60 * 24 * 3.
Definition ID_LENGTH : nat := 5.
Definition PHONE_NUMBERS : list (string * list string) :=
  [("DE", ["+49123456789"])].

(** [sys.maxsize] of a 64-bit interpreter. *)
Definition sys_maxsize : Z := 2 ^ 63 - 1.

(** ** Python text primitives used by the source

    [str(h)], the slice [s[-n:]] and [int(s)], on [string]. *)

Module PyText.

Definition digit_char (d : Z) : ascii := ascii_of_nat (48 + Z.to_nat d).

Definition digit_value (c : ascii) : option Z :=
  let n := Z.of_nat (nat_of_ascii c) in
  if (48 <=? n) && (n <=? 57) then Some (n - 48) else None.

(** Decimal digits of a non-negative number, least significant first.
    [fuel] bounds the number of digits produced. *)
Fixpoint le_digits (fuel : nat) (n : Z) : list Z :=
  match fuel with
  | O => []
  | S f => (n mod 10) :: (if n <? 10 then [] else le_digits f (n / 10))
  end.

(** A number below [2 ^ k] has at most [k] decimal digits. *)
Definition digit_fuel (n : Z) : nat := S (Z.to_nat (Z.log2 n)).

Definition digits_of (n : Z) : list ascii :=
  map digit_char (rev (le_digits (digit_fuel n) n)).

(** [str(z)] for an [int]: a minus sign for negatives, then the decimal
    digits without leading zeros. *)
Definition str_chars (z : Z) : list ascii :=
  if z <? 0 then "-"%char :: digits_of (- z) else digits_of z.

Definition str (z : Z) : string := String.string_of_list_ascii (str_chars z).

(** [s[-n:]]: the last [n] characters, the whole string when it is
    shorter. *)
Definition last_chars (n : nat) (l : list ascii) : list ascii :=
  drop (length l - n)%nat l.

Definition slice_last (n : nat) (s : string) : string :=
  String.string_of_list_ascii (last_chars n (String.list_ascii_of_string s)).

(** White space as [int()] strips it from ASCII text: tab, line feed,
    vertical tab, form feed, carriage return and the space. The separators
    28-31 are not stripped. *)
Definition is_space (c : ascii) : bool :=
  let n := nat_of_ascii c in
  ((9 <=? n)%nat && (n <=? 13)%nat) || (n =? 32)%nat.

Fixpoint drop_spaces (l : list ascii) : list ascii :=
  match l with
  | c :: r => if is_space c then drop_spaces r else l
  | [] => []
  end.

Definition strip (l : list ascii) : list ascii :=
  rev (drop_spaces (rev (drop_spaces l))).

(** The digits of an [int()] literal in base ten: at least one digit, and
    single underscores allowed between digits only. [prev] tells whether
    the previous character was a digit. *)
Fixpoint parse_digits (acc : Z) (prev : bool) (l : list ascii) : option Z :=
  match l with
  | [] => if prev then Some acc else None
  | c :: r =>
      match digit_value c with
      | Some d => parse_digits (acc * 10 + d) true r
      | None =>
          if Ascii.eqb c "_" && prev then parse_digits acc false r else None
      end
  end.

(** [sys.int_info.default_max_str_digits]: a literal with more digits is
    refused. *)
Definition MAX_STR_DIGITS : Z := 4300.

Definition is_digit_char (c : ascii) : bool :=
  match digit_value c with Some _ => true | None => false end.

Definition count_digits (l : list ascii) : Z :=
  Z.of_nat (length (List.filter is_digit_char l)).

(** The part of the literal after the sign. *)
Definition int_digits (r : list ascii) : option Z :=
  if MAX_STR_DIGITS <? count_digits r then None else parse_digits 0 false r.

(** [int(s)] on ASCII text; [None] stands for [ValueError]. A [string]
    holds the UTF-8 bytes of the text; the white space and the decimal
    digits of Unicode outside ASCII, which [int()] also accepts, are not
    modelled: text with a byte above 127 is outside the domain of this
    definition, see [is_ascii]. *)
Definition int_chars (l : list ascii) : option Z :=
  match strip l with
  | "-"%char :: r => Z.opp <$> int_digits r
  | "+"%char :: r => int_digits r
  | r => int_digits r
  end.

Definition int (s : string) : option Z :=
  int_chars (String.list_ascii_of_string s).

(** The text has ASCII characters only. *)
Definition is_ascii (s : string) : bool :=
  forallb (fun c => (nat_of_ascii c <? 128)%nat) (String.list_ascii_of_string s).

End PyText.

(** ** Exceptions and results

    The exceptions the modelled code can raise: [ValueError] from [int()],
    [OverflowError] from the SQLite binding when an [int] parameter does not
    fit a 64-bit INTEGER, and [RecursionError] when the interpreter's stack
    of nested calls is used up. *)

Inductive exn : Type := ValueError | OverflowError | RecursionError.

Inductive result (A : Type) : Type :=
| Ok (a : A)
| Raise (e : exn).
Arguments Ok {A} a.
Arguments Raise {A} e.

Global Instance result_ret : MRet result := fun A a => Ok a.

Global Instance result_bind : MBind result := fun A B k r =>
  match r with
  | Ok a => k a
  | Raise e => Raise e
  end.

(** ** The table [conferences] and the SQLite statements of the source *)

Record row : Type := mk_row {
  row_id : Z;
  row_jid : string;
  row_created_time : Z
}.

Abbreviation table := (list row).

Module Sqlite.

Definition INT64_MIN : Z := - 2 ^ 63.
Definition INT64_MAX : Z := 2 ^ 63 - 1.

Definition int64 (z : Z) : Prop := INT64_MIN <= z <= INT64_MAX.

(** Binding a Python [int] to a [?] placeholder: the value must fit the
    64-bit INTEGER storage class, otherwise [execute] raises
    [OverflowError]. Text parameters are bound as they are. *)
Definition bind_int (z : Z) : result Z :=
  if (INT64_MIN <=? z) && (z <=? INT64_MAX) then Ok z else Raise OverflowError.

(** [cursor.fetchone()]: the first row of the result, rows being scanned
    in insertion order. *)
Definition fetchone {A : Type} (rows : list A) : option A := head rows.

(** [SELECT id FROM conferences WHERE jid = ?] *)
Definition select_id_where_jid (jid : string) (t : table) : list Z :=
  row_id <$> filter (fun r => row_jid r = jid) t.

(** [SELECT jid FROM conferences WHERE id = ?] *)
Definition select_jid_where_id (id : Z) (t : table) : list string :=
  row_jid <$> filter (fun r => row_id r = id) t.

(** [INSERT INTO conferences VALUES (?, ?, ?)] *)
Definition insert (id : Z) (jid : string) (created_time : Z) (t : table) : table :=
  t ++ [mk_row id jid created_time].

(** [DELETE FROM conferences WHERE created_time < ?] *)
Definition delete_where_created_before (cutoff : Z) (t : table) : table :=
  filter (fun r => ~ row_created_time r < cutoff) t.

End Sqlite.

(** ** [class ConferenceMaps]

    The interpreter supplies two things the source relies on: the builtin
    [hash] of a string, and the number of nested [create_room] calls the
    call stack admits before [RecursionError]. The clock reading
    [current_timestamp] is passed as [now]; the table is threaded through
    the operations. *)

Section ConferenceMaps.

Variable hash : string -> Z.
Variable recursion_limit : nat.

(** [__generate_room_id] *)
Definition generate_room_id (jid : string) (offset : Z) : result Z :=
  let h := hash jid in
  let h := if h <? 0 then h + sys_maxsize else h in
  let h := h + offset in
  match PyText.int (PyText.slice_last ID_LENGTH (PyText.str h)) with
  | Some c => Ok c
  | None => Raise ValueError
  end.

(** [__lookup_id]; the one selected column stands for the row. *)
Definition lookup_id (room_id : Z) (t : table) : result (option string) :=
  id ← Sqlite.bind_int room_id;
  Ok (Sqlite.fetchone (Sqlite.select_jid_where_id id t)).

(** [find_by_id] *)
Definition find_by_id (room_id : Z) (t : table) : result (option string) :=
  result ← lookup_id room_id t;
  match result with
  | None => Ok None
  | Some jid => Ok (Some jid)
  end.

(** [create_room]; [depth] is the number of nested calls still
    available, the recursive call of line 71 uses one. *)
Fixpoint create_room (depth : nat) (jid : string) (offset : Z) (now : Z)
    (t : table) : result (Z * table) :=
  match depth with
  | O => Raise RecursionError
  | S depth' =>
      new_room_id ← generate_room_id jid offset;
      found ← find_by_id new_room_id t;
      match found with
      | Some _ => create_room depth' jid (offset + 1) now t
      | None =>
          id ← Sqlite.bind_int new_room_id;
          created ← Sqlite.bind_int now;
          Ok (new_room_id, Sqlite.insert id jid created t)
      end
  end.

(** [find_by_jid] *)
Definition find_by_jid (jid : string) (now : Z) (t : table) : result (Z * table) :=
  match Sqlite.fetchone (Sqlite.select_id_where_jid jid t) with
  | None => create_room recursion_limit jid 0 now t
  | Some id => Ok (id, t)
  end.

(** [clean] *)
Definition clean (now : Z) (t : table) : result table :=
  cutoff ← Sqlite.bind_int (now - EXPIRE_SECONDS);
  Ok (Sqlite.delete_where_created_before cutoff t).

(** *** Sequences of operations on one [ConferenceMaps] object

    An operation that raises leaves the table as it was: no method raises
    after its INSERT or DELETE statement. *)

Inductive op : Type :=
| FindByJid (jid : string)
| CreateRoom (jid : string) (offset : Z)
| FindById (room_id : Z)
| Clean.

Definition step (o : op) (now : Z) (t : table) : table :=
  match o with
  | FindByJid jid =>
      match find_by_jid jid now t with Ok (_, t') => t' | Raise _ => t end
  | CreateRoom jid offset =>
      match create_room recursion_limit jid offset now t with
      | Ok (_, t') => t'
      | Raise _ => t
      end
  | FindById _ => t
  | Clean => match clean now t with Ok t' => t' | Raise _ => t end
  end.

(** A trace pairs each operation with the clock reading it sees. *)
Definition run (tr : list (op * Z)) (t : table) : table :=
  foldl (fun t x => step (fst x) (snd x) t) t tr.

Definition reachable (t : table) : Prop := exists tr, run tr [] = t.

(** Traces in which rooms are created only by [find_by_jid], as the
    request handler does. *)
Definition is_direct_create (o : op) : bool :=
  match o with CreateRoom _ _ => true | _ => false end.

Definition api_trace (tr : list (op * Z)) : bool :=
  forallb (fun x => negb (is_direct_create (fst x))) tr.

Definition is_clean (o : op) : bool :=
  match o with Clean => true | _ => false end.

Definition sweep_free (tr : list (op * Z)) : bool :=
  forallb (fun x => negb (is_clean (fst x))) tr.

(** *** [class API]: the request handler

    [do_GET] receives the path and the parsed query [parse_qs(url.query)],
    a dictionary from parameter names to the lists of their values: it is
    the handler from line 120 on. The parsing of the request target that
    comes first is in [do_GET_target] below. *)

Inductive json : Type :=
| JString (s : string)
| JInt (z : Z)
| JBool (b : bool)
| JNumbers (numbers : list (string * list string)).

Inductive response : Type :=
| JsonResponse (status_code : Z) (data : list (string * json))
| TextResponse (status_code : Z) (body : string).

Definition send_json (data : list (string * json)) (status_code : Z) : response :=
  JsonResponse status_code data.

(** Lines 149-151: [int(query["id"][0])], then the test [room_id <= 0];
    [None] stands for the [ValueError] of either. As [PyText.int], this is
    the source's behaviour on ASCII values. *)
Definition parse_room_id (v : string) : option Z :=
  match PyText.int v with
  | Some room_id => if room_id <=? 0 then None else Some room_id
  | None => None
  end.

(** The outcome is the response written, or the exception that leaves
    [do_GET] before any response is written. *)
Definition do_GET (url_path : string) (query : gmap string (list string))
    (now : Z) (t : table) : result response * table :=
  if decide (url_path = "/phoneNumberList") then
    (Ok (send_json [("message", JString "Phone numbers available.");
                    ("numbers", JNumbers PHONE_NUMBERS);
                    ("numbersEnabled", JBool true)] 200), t)
  else if decide (url_path = "/conferenceMapper") then
    match query !! "conference" with
    | Some (jid :: _) =>
        match find_by_jid jid now t with
        | Raise _ =>
            (Ok (send_json [("message", JString "ID allocation failed");
                            ("conference", JString jid)] 500), t)
        | Ok (room_id, t') =>
            (Ok (send_json
                   [("message", JString "Successfully retrieved conference mapping");
                    ("id", JInt room_id);
                    ("conference", JString jid)] 200), t')
        end
    | _ =>
        match query !! "id" with
        | Some (v :: _) =>
            match parse_room_id v with
            | None => (Ok (send_json [("message", JString "Invalid ID")] 400), t)
            | Some room_id =>
                match find_by_id room_id t with
                | Raise e => (Raise e, t)
                | Ok None =>
                    (Ok (send_json [("message", JString "Room ID not found")] 404), t)
                | Ok (Some jid) =>
                    (Ok (send_json
                           [("message", JString "Successfully retrieved conference mapping");
                            ("id", JInt room_id);
                            ("conference", JString jid)] 200), t)
                end
            end
        | _ =>
            (Ok (send_json [("message", JString "No conference or ID provided.")] 400), t)
        end
    end
  else (Ok (TextResponse 404 "Not found"), t).

End ConferenceMaps.

(** *** [do_GET] from the request target (lines 117-128)

    [urlparse(self.path)] gives the path and the query string, and
    [parse_qs] the dictionary of the parameters, which is only asked for
    under [/conferenceMapper]. Both are the library's and are taken as
    they are; either call may raise, and neither is inside a [try]. *)

Section Request.

Variable urlparse : string -> result (string * string).
Variable parse_qs : string -> result (gmap string (list string)).
Variable hash : string -> Z.
Variable recursion_limit : nat.

Definition do_GET_target (target : string) (now : Z) (t : table)
    : result response * table :=
  match urlparse target with
  | Raise e => (Raise e, t)
  | Ok (url_path, url_query) =>
      if decide (url_path = "/conferenceMapper") then
        match parse_qs url_query with
        | Raise e => (Raise e, t)
        | Ok query => do_GET hash recursion_limit url_path query now t
        end
      else do_GET hash recursion_limit url_path ∅ now t
  end.

End Request.


(** ** Vocabulary of the theorems *)

Definition is_digit (d : Z) : Prop := 0 <= d < 10.

(** The number written by a list of digits, least significant first. *)
Definition value_le (l : list Z) : Z :=
  fold_right (fun d acc => d + 10 * acc) 0 l.

(** The number read from the last five characters of [str h]: the last five
    digits of [h], or [h] itself when it is negative with at most four
    digits, the sign then being part of the slice. *)
Definition room_code (h : Z) : Z :=
  if 0 <=? h then h mod 10 ^ 5
  else if - 10 ^ 4 <? h then h
  else (- h) mod 10 ^ 5.

Definition unique_ids (t : table) : Prop := NoDup (row_id <$> t).
Definition unique_jids (t : table) : Prop := NoDup (row_jid <$> t).

Definition occupied (t : table) (c : Z) : Prop := c ∈ row_id <$> t.

Global Instance occupied_dec t c : Decision (occupied t c).
Proof. unfold occupied. apply _. Defined.

(** Every stored code is one [generate_room_id] can produce. *)
Definition stored_ids_bounded (t : table) : Prop :=
  Forall (fun r => - 10 ^ 4 < row_id r < 10 ^ 5) t.

Definition table_ok (t : table) : Prop := unique_ids t /\ stored_ids_bounded t.

(** The builtin [hash] yields a [Py_hash_t], a signed 64-bit integer. *)
Definition hash_in_range (hash : string -> Z) : Prop :=
  forall s, - 2 ^ 63 <= hash s < 2 ^ 63.

(** ** Sample interpreter parameters, to run the definitions

    A multiplicative string hash reduced to a signed 64-bit value; it maps
    the empty string to 0, as the builtin does. The default recursion limit
    of the interpreter is 1000. *)

Definition to_signed64 (x : Z) : Z := (x + 2 ^ 63) mod 2 ^ 64 - 2 ^ 63.

Definition sample_hash (s : string) : Z :=
  to_signed64
    (fold_left (fun x c => Z.lxor (1000003 * x) (Z.of_nat (nat_of_ascii c)))
               (String.list_ascii_of_string s) 0).

Definition sample_limit : nat := 1000.

(** Sample parsers for targets of the form [path?name=value], to run
    [do_GET_target]: the text before the first [?] is the path, and the
    query string holds one parameter with one value. *)
Fixpoint split_at (sep : ascii) (l : list ascii) : list ascii * list ascii :=
  match l with
  | [] => ([], [])
  | c :: r =>
      if Ascii.eqb c sep then ([], r)
      else let '(before, after) := split_at sep r in (c :: before, after)
  end.

Definition sample_urlparse (target : string) : result (string * string) :=
  let '(path, query) := split_at "?" (String.list_ascii_of_string target) in
  Ok (String.string_of_list_ascii path, String.string_of_list_ascii query).

Definition sample_parse_qs (url_query : string)
    : result (gmap string (list string)) :=
  let '(name, value) := split_at "=" (String.list_ascii_of_string url_query) in
  Ok (if decide (value = []) then ∅
      else {[ String.string_of_list_ascii name := [String.string_of_list_ascii value] ]}).

(** A table in which the [n] consecutive codes from [first] on are taken. *)
Definition occupied_run (first : Z) (n : nat) : table :=
  (fun k => mk_row (first + Z.of_nat k) (PyText.str (Z.of_nat k)) 0) <$> seq 0 n.

(** A table in which every code from 0 to 99999 is taken. *)
Definition full_table : table :=
  (fun k => mk_row (Z.of_nat k) (PyText.str (Z.of_nat k)) 0)
    <$> seq 0 (Z.to_nat 100000).

(** ** The start of the process ([daemon.py], lines 29-47 and 111-112)

    The database file holds the table [conferences] or does not hold it
    yet. Lines written by [log] are not part of the model. *)

Abbreviation database := (option table).

(** [__init_table], called by [__init__]: the table is created empty when
    [sqlite_master] has no table of that name, and left alone otherwise. *)
Definition init_table (db : database) : table :=
  match db with
  | None => []
  | Some t => t
  end.

(** [maps = ConferenceMaps(conn)] followed by [maps.clean()]. *)
Definition startup (now : Z) (db : database) : result table :=
  clean now (init_table db).

(** ** [__send_json] and what is written to the client

    [json.dumps] with its defaults: [ensure_ascii] escaping, the separators
    [", "] and [": "], keys in insertion order. A [string] holds the UTF-8
    bytes of the Python text, which [dumps] reads back as code points. *)

Module Json.

Definition quote_mark : ascii := ascii_of_nat 34.
Definition backslash : ascii := ascii_of_nat 92.

Definition byte (c : ascii) : Z := Z.of_nat (nat_of_ascii c).

Definition is_cont (b : Z) : bool := (128 <=? b) && (b <=? 191).

(** The code points of UTF-8 text. Bytes that are not UTF-8 stand for no
    Python text; such a byte is read as U+FFFD. *)
Fixpoint decode_utf8 (l : list ascii) : list Z :=
  match l with
  | [] => []
  | c0 :: r0 =>
      let b0 := byte c0 in
      if b0 <? 128 then b0 :: decode_utf8 r0
      else
        match r0 with
        | [] => [65533]
        | c1 :: r1 =>
            let b1 := byte c1 in
            if (194 <=? b0) && (b0 <=? 223) && is_cont b1
            then ((b0 - 192) * 64 + (b1 - 128)) :: decode_utf8 r1
            else
              match r1 with
              | [] => 65533 :: decode_utf8 r0
              | c2 :: r2 =>
                  let b2 := byte c2 in
                  if (224 <=? b0) && (b0 <=? 239) && is_cont b1 && is_cont b2
                  then ((b0 - 224) * 4096 + (b1 - 128) * 64 + (b2 - 128))
                         :: decode_utf8 r2
                  else
                    match r2 with
                    | [] => 65533 :: decode_utf8 r0
                    | c3 :: r3 =>
                        let b3 := byte c3 in
                        if (240 <=? b0) && (b0 <=? 244)
                           && is_cont b1 && is_cont b2 && is_cont b3
                        then ((b0 - 240) * 262144 + (b1 - 128) * 4096
                              + (b2 - 128) * 64 + (b3 - 128)) :: decode_utf8 r3
                        else 65533 :: decode_utf8 r0
                    end
              end
        end
  end.

Definition hex_char (d : Z) : ascii :=
  ascii_of_nat (Z.to_nat (if d <? 10 then 48 + d else 87 + d)).

(** [\uxxxx] with four lower-case hexadecimal digits. *)
Definition unicode_escape (n : Z) : list ascii :=
  [backslash; "u"%char; hex_char (n / 4096 mod 16); hex_char (n / 256 mod 16);
   hex_char (n / 16 mod 16); hex_char (n mod 16)].

(** One code point inside a JSON string: the short escapes, the character
    itself from the space to the tilde, [\uxxxx] for the others, as a
    surrogate pair beyond U+FFFF. *)
Definition escape_code_point (cp : Z) : list ascii :=
  if cp =? 34 then [backslash; quote_mark]
  else if cp =? 92 then [backslash; backslash]
  else if cp =? 10 then [backslash; "n"%char]
  else if cp =? 13 then [backslash; "r"%char]
  else if cp =? 9 then [backslash; "t"%char]
  else if cp =? 8 then [backslash; "b"%char]
  else if cp =? 12 then [backslash; "f"%char]
  else if (32 <=? cp) && (cp <=? 126) then [ascii_of_nat (Z.to_nat cp)]
  else if cp <? 65536 then unicode_escape cp
  else unicode_escape (55296 + (cp - 65536) / 1024)
         ++ unicode_escape (56320 + (cp - 65536) mod 1024).

Definition quote_chars (s : string) : list ascii :=
  quote_mark
    :: concat (map escape_code_point (decode_utf8 (String.list_ascii_of_string s)))
    ++ [quote_mark].

(** [", ".join(parts)] *)
Fixpoint join (parts : list (list ascii)) : list ascii :=
  match parts with
  | [] => []
  | [p] => p
  | p :: ps => p ++ [","; " "]%char ++ join ps
  end.

Definition array_chars (items : list (list ascii)) : list ascii :=
  "["%char :: join items ++ ["]"%char].

Definition object_chars (members : list (string * list ascii)) : list ascii :=
  "{"%char
    :: join (map (fun m => quote_chars (fst m) ++ [":"; " "]%char ++ snd m) members)
    ++ ["}"%char].

Definition value_chars (v : json) : list ascii :=
  match v with
  | JString s => quote_chars s
  | JInt z => PyText.str_chars z
  | JBool b => String.list_ascii_of_string (if b then "true" else "false")
  | JNumbers numbers =>
      object_chars (map (fun kv => (fst kv, array_chars (map quote_chars (snd kv)))) numbers)
  end.

(** [json.dumps(data)] for the dictionaries the handler builds. *)
Definition dumps (data : list (string * json)) : string :=
  String.string_of_list_ascii
    (object_chars (map (fun kv => (fst kv, value_chars (snd kv))) data)).

End Json.







(** Single quotes turned into double quotes, to write expected JSON texts. *)
Definition requote (s : string) : string :=
  String.string_of_list_ascii
    (map (fun c => if Ascii.eqb c "'" then Json.quote_mark else c)
         (String.list_ascii_of_string s)).

(** Case analysis on a decimal digit. *)
Ltac each_digit d H :=
  let E := fresh "E" in
  assert (d = 0 \/ d = 1 \/ d = 2 \/ d = 3 \/ d = 4 \/
          d = 5 \/ d = 6 \/ d = 7 \/ d = 8 \/ d = 9) as E
    by (unfold is_digit in H; lia);
  destruct E as [->|[->|[->|[->|[->|[->|[->|[->|[->| ->]]]]]]]]].

(** ** The definitions on concrete inputs *)

Example str_examples :
  PyText.str 0 = "0" /\ PyText.str 1234567 = "1234567" /\
  PyText.str (-1) = "-1" /\ PyText.str (2 ^ 63) = "9223372036854775808".
Proof. vm_compute. repeat split. Qed.

Example slice_examples :
  PyText.slice_last 5 "1234567" = "34567" /\ PyText.slice_last 5 "42" = "42" /\
  PyText.slice_last 5 "-1" = "-1" /\ PyText.slice_last 5 "100000" = "00000".
Proof. vm_compute. repeat split. Qed.

Example int_examples :
  PyText.int "00042" = Some 42 /\ PyText.int "-1" = Some (-1) /\
  PyText.int " 12 " = Some 12 /\ PyText.int "1_000" = Some 1000 /\
  PyText.int "1__0" = None /\ PyText.int "" = None /\ PyText.int "abc" = None /\
  PyText.int "+7" = Some 7 /\ PyText.int "1_" = None /\ PyText.int "-" = None.
Proof. vm_compute. repeat split. Qed.

Example generate_room_id_examples :
  generate_room_id sample_hash "room1@example.com" 0 = Ok 41613 /\
  generate_room_id sample_hash "a" 3 = Ok 100 /\
  generate_room_id (fun _ => 123456) "a" 0 = Ok 23456 /\
  generate_room_id (fun _ => 42) "a" 0 = Ok 42 /\
  generate_room_id (fun _ => - 2 ^ 63) "a" 0 = Ok (-1) /\
  generate_room_id (fun _ => - 2 ^ 63) "a" 1 = Ok 0 /\
  generate_room_id (fun _ => -1) "a" 0 = Ok 75806.
Proof. vm_compute. repeat split. Qed.

Example create_room_examples :
  create_room sample_hash 4 "a" 0 20 [mk_row 97 "x" 1; mk_row 98 "y" 2; mk_row 99 "z" 3]
    = Ok (100, [mk_row 97 "x" 1; mk_row 98 "y" 2; mk_row 99 "z" 3; mk_row 100 "a" 20]) /\
  create_room sample_hash 3 "a" 0 20 [mk_row 97 "x" 1; mk_row 98 "y" 2; mk_row 99 "z" 3]
    = Raise RecursionError /\
  create_room sample_hash 4 "a" 0 (2 ^ 63) [] = Raise OverflowError.
Proof. vm_compute. repeat split. Qed.

Example find_examples :
  find_by_jid sample_hash sample_limit "y" 20 [mk_row 97 "x" 1; mk_row 98 "y" 2]
    = Ok (98, [mk_row 97 "x" 1; mk_row 98 "y" 2]) /\
  find_by_id 98 [mk_row 97 "x" 1; mk_row 98 "y" 2] = Ok (Some "y") /\
  find_by_id 99 [mk_row 97 "x" 1; mk_row 98 "y" 2] = Ok None /\
  find_by_id (2 ^ 63) [mk_row 97 "x" 1; mk_row 98 "y" 2] = Raise OverflowError.
Proof. vm_compute. repeat split. Qed.

Example clean_example :
  clean 300000 [mk_row 1 "a" 40799; mk_row 2 "b" 40800; mk_row 3 "c" 40801]
    = Ok [mk_row 2 "b" 40800; mk_row 3 "c" 40801].
Proof. vm_compute. reflexivity. Qed.

Example do_GET_examples :
  do_GET sample_hash sample_limit "/conferenceMapper"
      {[ "conference" := ["room1@example.com"] ]} 1700000000 []
    = (Ok (JsonResponse 200
             [("message", JString "Successfully retrieved conference mapping");
              ("id", JInt 41613); ("conference", JString "room1@example.com")]),
       [mk_row 41613 "room1@example.com" 1700000000]) /\
  do_GET sample_hash sample_limit "/conferenceMapper" {[ "id" := ["41613"] ]} 1700000001
      [mk_row 41613 "room1@example.com" 1700000000]
    = (Ok (JsonResponse 200
             [("message", JString "Successfully retrieved conference mapping");
              ("id", JInt 41613); ("conference", JString "room1@example.com")]),
       [mk_row 41613 "room1@example.com" 1700000000]) /\
  do_GET sample_hash sample_limit "/conferenceMapper" {[ "id" := ["0"] ]} 5 []
    = (Ok (JsonResponse 400 [("message", JString "Invalid ID")]), []) /\
  do_GET sample_hash sample_limit "/conferenceMapper" {[ "id" := ["99999999"] ]} 5 []
    = (Ok (JsonResponse 404 [("message", JString "Room ID not found")]), []) /\
  do_GET sample_hash sample_limit "/conferenceMapper" ∅ 5 []
    = (Ok (JsonResponse 400 [("message", JString "No conference or ID provided.")]), []) /\
  do_GET sample_hash sample_limit "/other" ∅ 5 [] = (Ok (TextResponse 404 "Not found"), []).
Proof. vm_compute. repeat split. Qed.

(** ** Decimal text *)

Module PyTextFacts.
Import PyText.

Lemma digit_value_char d : is_digit d -> digit_value (digit_char d) = Some d.
Proof. intros H. each_digit d H; reflexivity. Qed.

Lemma digit_char_not_space d : is_digit d -> is_space (digit_char d) = false.
Proof. intros H. each_digit d H; reflexivity. Qed.

Lemma le_digits_are_digits fuel : forall n, Forall is_digit (le_digits fuel n).
Proof.
induction fuel as [|f IH]; intros n; simpl; [constructor|].
constructor.
- unfold is_digit. apply Z.mod_pos_bound. lia.
- destruct (n <? 10); [constructor | apply IH].
Qed.

Lemma le_digits_value fuel : forall n,
0 <= n < 2 ^ Z.of_nat fuel -> value_le (le_digits fuel n) = n.
Proof.
induction fuel as [|f IH]; intros n Hn.
- simpl in *. lia.
- cbn [le_digits value_le fold_right]. destruct (Z.ltb_spec n 10) as [Hlt|Hge].
  + simpl. rewrite Z.mod_small by lia. lia.
  + fold (value_le (le_digits f (n / 10))). rewrite IH.
    * pose proof (Z.div_mod n 10). lia.
    * rewrite Nat2Z.inj_succ, Z.pow_succ_r in Hn by lia.
      split; [apply Z.div_pos; lia|].
      apply Z.div_lt_upper_bound; lia.
Qed.

Lemma digit_fuel_enough n : 0 <= n -> 0 <= n < 2 ^ Z.of_nat (digit_fuel n).
Proof.
intros Hn. split; [done|]. unfold digit_fuel.
rewrite Nat2Z.inj_succ, Z2Nat.id by apply Z.log2_nonneg.
destruct (Z.eq_dec n 0) as [->|Hne]; [reflexivity|].
apply Z.log2_spec. lia.
Qed.

Lemma le_digits_nonempty n : le_digits (digit_fuel n) n <> [].
Proof. unfold digit_fuel. simpl. discriminate. Qed.

Lemma value_le_bound l : Forall is_digit l -> 0 <= value_le l < 10 ^ Z.of_nat (length l).
Proof.
induction 1 as [|d l Hd _ IH]; [simpl; lia|].
cbn [value_le fold_right length]. fold (value_le l).
rewrite Nat2Z.inj_succ, Z.pow_succ_r by lia. unfold is_digit in Hd. lia.
Qed.

Lemma value_le_take k : forall l, Forall is_digit l ->
value_le (take k l) = value_le l mod 10 ^ Z.of_nat k.
Proof.
induction k as [|k IH]; intros l Hl.
- rewrite take_0. simpl. by rewrite Z.mod_1_r.
- destruct Hl as [|d l Hd Hl]; [by rewrite take_nil|].
  cbn [take firstn value_le fold_right]. fold (value_le (take k l)) (value_le l).
  rewrite IH by done. rewrite Nat2Z.inj_succ, Z.pow_succ_r by lia.
  assert (0 < 10 ^ Z.of_nat k) by (apply Z.pow_pos_nonneg; lia).
  rewrite Z.rem_mul_r by lia.
  unfold is_digit in Hd.
  replace (d + 10 * value_le l) with (d + value_le l * 10) by lia.
  rewrite Z.mod_add, Z.div_add by lia.
  rewrite (Z.mod_small d), (Z.div_small d) by lia. done.
Qed.

(** Parsing the characters of a digit list, most significant first. *)
Lemma parse_digits_chars ds : Forall is_digit ds -> forall acc prev,
parse_digits acc prev (map digit_char ds) =
  match ds with
  | [] => if prev then Some acc else None
  | _ => Some (fold_left (fun a d => a * 10 + d) ds acc)
  end.
Proof.
induction 1 as [|d ds Hd Hds IH]; intros acc prev; [done|].
cbn [map parse_digits]. rewrite digit_value_char by done.
rewrite IH. by destruct ds.
Qed.

Lemma fold_left_rev_value l :
fold_left (fun a d => a * 10 + d) (rev l) 0 = value_le l.
Proof.
rewrite <- (rev_involutive l) at 2. unfold value_le.
rewrite (fold_left_rev_right (fun d acc => d + 10 * acc)).
generalize (rev l) as r, 0. induction r as [|d r IH]; intros a; [done|].
simpl. rewrite <- IH. f_equal. lia.
Qed.

Lemma drop_spaces_id l : Forall (fun c => is_space c = false) l -> drop_spaces l = l.
Proof. destruct 1 as [|c l Hc _]; [done|]. simpl. by rewrite Hc. Qed.

Lemma strip_id l : Forall (fun c => is_space c = false) l -> strip l = l.
Proof.
intros H. unfold strip. rewrite (drop_spaces_id l H).
rewrite drop_spaces_id; [apply rev_involutive|]. by apply List.Forall_rev.
Qed.

Lemma last_chars_rev {A B} (f : A -> B) n (l : list A) :
drop (length (map f (rev l)) - n) (map f (rev l)) = map f (rev (take n l)).
Proof.
rewrite length_map, length_rev, skipn_map, skipn_rev. do 2 f_equal.
destruct (Nat.le_gt_cases n (length l)) as [Hle|Hgt].
- f_equal. lia.
- replace (length l - (length l - n))%nat with (length l) by lia.
  rewrite firstn_all, firstn_all2; [done | lia].
Qed.

Lemma le_digits_no_leading_zero fuel : forall n, 1 <= n < 2 ^ Z.of_nat fuel ->
10 ^ (Z.of_nat (length (le_digits fuel n)) - 1) <= n.
Proof.
induction fuel as [|f IH]; intros n Hn; [simpl in Hn; lia|].
cbn [le_digits]. destruct (Z.ltb_spec n 10) as [Hlt|Hge]; [simpl; lia|].
cbn [length]. rewrite Nat2Z.inj_succ.
rewrite Nat2Z.inj_succ, Z.pow_succ_r in Hn by lia.
assert (1 <= n / 10 < 2 ^ Z.of_nat f) as Hq.
{ split; [apply Z.div_le_lower_bound; lia | apply Z.div_lt_upper_bound; lia]. }
specialize (IH _ Hq).
assert (0 < length (le_digits f (n / 10)))%nat.
{ destruct f; [simpl in Hq; lia|]. simpl. lia. }
replace (Z.succ (Z.of_nat (length (le_digits f (n / 10)))) - 1)
  with (Z.succ (Z.of_nat (length (le_digits f (n / 10))) - 1)) by lia.
rewrite Z.pow_succ_r by lia.
pose proof (Z.mul_div_le n 10). lia.
Qed.

Lemma digits_not_space ds :
Forall is_digit ds -> Forall (fun c => is_space c = false) (map digit_char ds).
Proof.
induction 1; constructor; auto using digit_char_not_space.
Qed.

Lemma count_digits_chars ds :
Forall is_digit ds -> count_digits (map digit_char ds) = Z.of_nat (length ds).
Proof.
unfold count_digits. intros Hds. f_equal.
induction Hds as [|d ds Hd _ IH]; [done|].
cbn [map List.filter]. unfold is_digit_char at 1.
rewrite digit_value_char by done. cbn [length]. by rewrite IH.
Qed.

(** A literal of at most [MAX_STR_DIGITS] digits. *)
Lemma int_digits_chars ds :
ds <> [] -> Forall is_digit ds -> Z.of_nat (length ds) <= MAX_STR_DIGITS ->
int_digits (map digit_char ds) = Some (fold_left (fun a d => a * 10 + d) ds 0).
Proof.
intros Hne Hds Hlen. unfold int_digits. rewrite count_digits_chars by done.
destruct (Z.ltb_spec MAX_STR_DIGITS (Z.of_nat (length ds))); [lia|].
rewrite parse_digits_chars by done. by destruct ds.
Qed.

Lemma int_chars_digits ds :
ds <> [] -> Forall is_digit ds -> Z.of_nat (length ds) <= MAX_STR_DIGITS ->
int_chars (map digit_char ds) = Some (fold_left (fun a d => a * 10 + d) ds 0).
Proof.
intros Hne Hds Hlen. unfold int_chars. rewrite strip_id by by apply digits_not_space.
rewrite <- (int_digits_chars ds Hne Hds Hlen).
destruct Hds as [|d ds Hd Hds]; [done|].
each_digit d Hd; reflexivity.
Qed.

Lemma int_chars_minus_digits ds :
ds <> [] -> Forall is_digit ds -> Z.of_nat (length ds) <= MAX_STR_DIGITS ->
int_chars ("-"%char :: map digit_char ds) =
  Some (- fold_left (fun a d => a * 10 + d) ds 0).
Proof.
intros Hne Hds Hlen. unfold int_chars.
rewrite strip_id by (constructor; [done | by apply digits_not_space]).
by rewrite int_digits_chars by done.
Qed.

(** [int(str(h)[-n:])] for a non-negative [h] and [n > 0]. *)
Lemma int_slice_str_nonneg (n : nat) h :
(0 < n)%nat -> Z.of_nat n <= MAX_STR_DIGITS -> 0 <= h ->
int (slice_last n (str h)) = Some (h mod 10 ^ Z.of_nat n).
Proof.
intros Hn Hmax Hh. unfold int, slice_last, str.
rewrite !String.list_ascii_of_string_of_list_ascii.
unfold str_chars. destruct (Z.ltb_spec h 0) as [?|_]; [lia|].
unfold last_chars, digits_of. rewrite last_chars_rev.
pose proof (le_digits_are_digits (digit_fuel h) h) as Hd.
pose proof (le_digits_nonempty h) as Hne.
rewrite int_chars_digits.
- rewrite fold_left_rev_value, value_le_take by done.
  by rewrite le_digits_value by by apply digit_fuel_enough.
- destruct (le_digits (digit_fuel h) h); [done|]. destruct n; [lia|].
  simpl. intros Heq. by apply app_eq_nil in Heq as [_ ?].
- apply List.Forall_rev. by apply Forall_take.
- rewrite length_rev, length_take. lia.
Qed.

(** [int(str(h)[-n:])] for a negative [h]: the sign survives the slice only
  when [h] has fewer than [n] digits. *)
Lemma int_slice_str_neg (n : nat) h :
(0 < n)%nat -> Z.of_nat n <= MAX_STR_DIGITS -> h < 0 ->
int (slice_last n (str h)) =
  Some (if - 10 ^ (Z.of_nat n - 1) <? h then h else (- h) mod 10 ^ Z.of_nat n).
Proof.
intros Hn Hmax Hh. unfold int, slice_last, str.
rewrite !String.list_ascii_of_string_of_list_ascii.
unfold str_chars. destruct (Z.ltb_spec h 0) as [_|?]; [|lia].
pose proof (le_digits_are_digits (digit_fuel (- h)) (- h)) as Hd.
pose proof (le_digits_nonempty (- h)) as Hne.
pose proof (le_digits_value (digit_fuel (- h)) (- h)
              (digit_fuel_enough (- h) ltac:(lia))) as Hv.
pose proof (value_le_bound _ Hd) as Hb.
set (L := le_digits (digit_fuel (- h)) (- h)) in *.
assert (Hlen : length (digits_of (- h)) = length L).
{ unfold digits_of. fold L. by rewrite length_map, length_rev. }
destruct (Z.ltb_spec (- 10 ^ (Z.of_nat n - 1)) h) as [Hsmall|Hbig].
- (* fewer than [n] digits: the slice is the whole text *)
  assert (length L < n)%nat.
  { destruct (Nat.le_gt_cases n (length L)) as [Hle|]; [|done].
    pose proof (le_digits_no_leading_zero (digit_fuel (- h)) (- h)) as Hz.
    fold L in Hz. pose proof (digit_fuel_enough (- h)).
    assert (10 ^ (Z.of_nat n - 1) <= 10 ^ (Z.of_nat (length L) - 1))
      by (apply Z.pow_le_mono_r; lia).
    lia. }
  unfold last_chars. cbn [length].
  replace (S (length (digits_of (- h))) - n)%nat with 0%nat by lia.
  rewrite drop_0. unfold digits_of. fold L.
  rewrite int_chars_minus_digits.
  + rewrite fold_left_rev_value. f_equal. lia.
  + destruct L; [done|]. simpl. intros Heq. by apply app_eq_nil in Heq as [_ ?].
  + by apply List.Forall_rev.
  + rewrite length_rev. lia.
- (* at least [n] digits: the slice holds digits only *)
  assert (n <= length L)%nat.
  { destruct (Nat.le_gt_cases n (length L)) as [|Hgt]; [done|].
    assert (10 ^ Z.of_nat (length L) <= 10 ^ (Z.of_nat n - 1))
      by (apply Z.pow_le_mono_r; lia).
    lia. }
  unfold last_chars. cbn [length].
  replace (S (length (digits_of (- h))) - n)%nat
    with (S (length (digits_of (- h)) - n)) by lia.
  cbn [drop skipn]. unfold digits_of. fold L. rewrite last_chars_rev.
  rewrite int_chars_digits.
  + by rewrite fold_left_rev_value, value_le_take, Hv by done.
  + destruct L; [simpl in *; lia|]. destruct n; [lia|].
    simpl. intros Heq. by apply app_eq_nil in Heq as [_ ?].
  + apply List.Forall_rev. by apply Forall_take.
  + rewrite length_rev, length_take. lia.
Qed.
End PyTextFacts.

(** ** The SQLite statements *)

Module SqliteFacts.
Import Sqlite.

Lemma bind_int_ok z : int64 z -> bind_int z = Ok z.
Proof.
unfold int64, bind_int. intros [H1 H2].
apply Z.leb_le in H1, H2. by rewrite H1, H2.
Qed.

Lemma bind_int_inv z z' : bind_int z = Ok z' -> z' = z /\ int64 z.
Proof.
unfold int64, bind_int.
destruct (Z.leb_spec INT64_MIN z), (Z.leb_spec z INT64_MAX); simpl; intros [= <-]; auto.
Qed.

Lemma bind_int_overflow z : ~ int64 z -> bind_int z = Raise OverflowError.
Proof.
unfold int64, bind_int. intros H.
destruct (Z.leb_spec INT64_MIN z), (Z.leb_spec z INT64_MAX); simpl; auto; lia.
Qed.

(** [fetchone] after a [SELECT ... WHERE col = ?] finds nothing exactly when
  no row has that value in the column. *)
Lemma fetchone_where_None {A B} `{EqDecision A} (col : row -> A) (out : row -> B) v (t : table) :
fetchone (out <$> filter (fun r => col r = v) t) = None <-> v ∉ col <$> t.
Proof.
unfold fetchone. induction t as [|r t IH]; simpl.
- split; [intros _; apply not_elem_of_nil | done].
- rewrite filter_cons. rewrite not_elem_of_cons. case_decide as Hr; simpl.
  + split; [done | intros [Hne _]; by destruct Hne].
  + rewrite IH. split; [intros ?; split; [congruence | done] | by intros [_ ?]].
Qed.

Lemma fetchone_jid_None id (t : table) :
fetchone (select_jid_where_id id t) = None <-> ~ occupied t id.
Proof. apply (fetchone_where_None row_id row_jid). Qed.

Lemma fetchone_id_None jid (t : table) :
fetchone (select_id_where_jid jid t) = None <-> jid ∉ row_jid <$> t.
Proof. apply (fetchone_where_None row_jid row_id). Qed.

(** What [fetchone] returns comes from a row that matches. *)
Lemma fetchone_where_Some {A B} `{EqDecision A} (col : row -> A) (out : row -> B) v (t : table) b :
fetchone (out <$> filter (fun r => col r = v) t) = Some b ->
exists t1 r t2, t = t1 ++ r :: t2 /\ col r = v /\ out r = b /\ v ∉ col <$> t1.
Proof.
unfold fetchone. induction t as [|r t IH]; simpl; [done|].
rewrite filter_cons. case_decide as Hr; simpl.
- intros [= <-]. exists [], r, t. repeat split; auto. apply not_elem_of_nil.
- intros H. destruct (IH H) as (t1 & r' & t2 & -> & Hc & Ho & Hn).
  exists (r :: t1), r', t2. repeat split; auto.
  rewrite fmap_cons, not_elem_of_cons. auto.
Qed.

(** Rows appended to a table do not change a hit. *)
Lemma fetchone_where_app {A B} `{EqDecision A} (col : row -> A) (out : row -> B) v (t extra : table) b :
fetchone (out <$> filter (fun r => col r = v) t) = Some b ->
fetchone (out <$> filter (fun r => col r = v) (t ++ extra)) = Some b.
Proof.
unfold fetchone. rewrite filter_app, fmap_app. intros H.
destruct (out <$> filter (fun r => col r = v) t); [done|]. done.
Qed.

(** On a miss, the first matching row appended is the hit. *)
Lemma fetchone_where_snoc {A B} `{EqDecision A} (col : row -> A) (out : row -> B) (t : table) r :
fetchone (out <$> filter (fun r' => col r' = col r) t) = None ->
fetchone (out <$> filter (fun r' => col r' = col r) (t ++ [r])) = Some (out r).
Proof.
unfold fetchone. rewrite filter_app, fmap_app. intros H.
destruct (out <$> filter (fun r' => col r' = col r) t); [|done].
simpl. rewrite filter_cons. by case_decide.
Qed.

End SqliteFacts.

Lemma room_code_bounds h : - 10 ^ 4 < room_code h < 10 ^ 5.
Proof.
  unfold room_code.
  destruct (Z.leb_spec 0 h); [pose proof (Z.mod_pos_bound h (10 ^ 5)); lia|].
  destruct (Z.ltb_spec (- 10 ^ 4) h); [lia|].
  pose proof (Z.mod_pos_bound (- h) (10 ^ 5)). lia.
Qed.

Lemma room_code_int64 h : Sqlite.int64 (room_code h).
Proof.
  pose proof (room_code_bounds h). unfold Sqlite.int64, Sqlite.INT64_MIN, Sqlite.INT64_MAX. lia.
Qed.

Lemma bounded_int64 c : - 10 ^ 4 < c < 10 ^ 5 -> Sqlite.int64 c.
Proof. unfold Sqlite.int64, Sqlite.INT64_MIN, Sqlite.INT64_MAX. lia. Qed.

Section ConferenceMapsFacts.
Variable hash : string -> Z.
Variable recursion_limit : nat.

Import SqliteFacts.

Lemma generate_room_id_eq jid offset :
  generate_room_id hash jid offset =
    Ok (room_code ((if hash jid <? 0 then hash jid + sys_maxsize else hash jid) + offset)).
Proof.
  unfold generate_room_id.
  set (h := (if hash jid <? 0 then hash jid + sys_maxsize else hash jid) + offset).
  unfold room_code. destruct (Z.leb_spec 0 h) as [Hh|Hh].
  - by rewrite PyTextFacts.int_slice_str_nonneg
      by (done || (unfold ID_LENGTH, PyText.MAX_STR_DIGITS; lia)).
  - by rewrite PyTextFacts.int_slice_str_neg
      by (done || (unfold ID_LENGTH, PyText.MAX_STR_DIGITS; lia)).
Qed.

Lemma generate_room_id_total jid offset :
  exists c, generate_room_id hash jid offset = Ok c /\ - 10 ^ 4 < c < 10 ^ 5.
Proof. eexists. split; [apply generate_room_id_eq | apply room_code_bounds]. Qed.

Lemma generate_room_id_bounded jid offset c :
  generate_room_id hash jid offset = Ok c -> - 10 ^ 4 < c < 10 ^ 5.
Proof. rewrite generate_room_id_eq. intros [= <-]. apply room_code_bounds. Qed.

Lemma find_by_id_eq room_id t : Sqlite.int64 room_id ->
  find_by_id room_id t = Ok (Sqlite.fetchone (Sqlite.select_jid_where_id room_id t)).
Proof.
  intros H. unfold find_by_id, lookup_id. rewrite bind_int_ok by done. simpl.
  by destruct (Sqlite.fetchone _).
Qed.

Lemma find_by_id_free room_id t : Sqlite.int64 room_id ->
  find_by_id room_id t = Ok None <-> ~ occupied t room_id.
Proof.
  intros H. rewrite find_by_id_eq, <- fetchone_jid_None by done.
  split; [by intros [= ->] | by intros ->].
Qed.

Lemma find_by_id_taken room_id t : Sqlite.int64 room_id -> occupied t room_id ->
  exists jid, find_by_id room_id t = Ok (Some jid).
Proof.
  intros H Hocc. rewrite find_by_id_eq by done.
  destruct (Sqlite.fetchone _) as [jid|] eqn:E; [by exists jid|].
  by apply fetchone_jid_None in E.
Qed.

(** One step of [create_room], by cases on the candidate of this offset. *)
Lemma create_room_step depth jid offset now t c :
  generate_room_id hash jid offset = Ok c ->
  create_room hash (S depth) jid offset now t =
    if decide (occupied t c) then create_room hash depth jid (offset + 1) now t
    else created ← Sqlite.bind_int now; Ok (c, Sqlite.insert c jid created t).
Proof.
  intros Hc. pose proof (generate_room_id_bounded _ _ _ Hc) as Hb.
  apply bounded_int64 in Hb.
  cbn [create_room]. rewrite Hc. cbn [mbind result_bind].
  case_decide as Hocc.
  - destruct (find_by_id_taken c t Hb Hocc) as [j ->]. done.
  - apply (find_by_id_free c t Hb) in Hocc as ->. cbn [mbind result_bind].
    by rewrite (bind_int_ok c) by done.
Qed.

(** A successful [create_room] probed [k] occupied candidates and appended
    a row for the next one, which was free. *)
Lemma create_room_ok depth : forall jid offset now t c t',
  create_room hash depth jid offset now t = Ok (c, t') ->
  exists k : nat, (k < depth)%nat /\
    generate_room_id hash jid (offset + Z.of_nat k) = Ok c /\
    ~ occupied t c /\
    (forall j : nat, (j < k)%nat -> exists cj,
        generate_room_id hash jid (offset + Z.of_nat j) = Ok cj /\ occupied t cj) /\
    Sqlite.int64 now /\
    t' = t ++ [mk_row c jid now].
Proof.
  induction depth as [|depth IH]; intros jid offset now t c t' H; [done|].
  destruct (generate_room_id_total jid offset) as (c0 & Hc0 & Hb0).
  rewrite (create_room_step _ _ _ _ _ _ Hc0) in H. case_decide as Hocc.
  - destruct (IH _ _ _ _ _ _ H) as (k & Hk & Hg & Hfree & Hprev & Hnow & ->).
    exists (S k). rewrite Nat2Z.inj_succ.
    replace (offset + Z.succ (Z.of_nat k)) with (offset + 1 + Z.of_nat k) by lia.
    split_and!; [lia | done | done | | done | done].
    intros [|j] Hj.
    + exists c0. by rewrite Z.add_0_r.
    + destruct (Hprev j ltac:(lia)) as (cj & Hcj & Hoj). exists cj.
      rewrite Nat2Z.inj_succ.
      by replace (offset + Z.succ (Z.of_nat j)) with (offset + 1 + Z.of_nat j) by lia.
  - destruct (Sqlite.bind_int now) as [created|] eqn:Hnow; [|done].
    apply bind_int_inv in Hnow as [-> Hnow]. cbn in H. injection H as <- <-.
    exists 0%nat. rewrite Z.add_0_r.
    split_and!; [lia | done | done | | done | done]. intros j Hj. lia.
Qed.

(** The candidates before offset [k] are taken, the one at [k] is free,
    and the stack admits [k] more calls: [create_room] returns it. *)
Lemma create_room_probe_from (k : nat) : forall depth jid offset now t c,
  Sqlite.int64 now -> (k < depth)%nat ->
  (forall j : nat, (j < k)%nat -> exists cj,
      generate_room_id hash jid (offset + Z.of_nat j) = Ok cj /\ occupied t cj) ->
  generate_room_id hash jid (offset + Z.of_nat k) = Ok c ->
  ~ occupied t c ->
  create_room hash depth jid offset now t = Ok (c, t ++ [mk_row c jid now]).
Proof.
  induction k as [|k IH]; intros depth jid offset now t c Hnow Hd Hprev Hc Hfree;
    (destruct depth as [|depth]; [lia|]).
  - rewrite Z.add_0_r in Hc. rewrite (create_room_step _ _ _ _ _ _ Hc).
    rewrite decide_False by done. by rewrite bind_int_ok by done.
  - destruct (Hprev 0%nat ltac:(lia)) as (c0 & Hc0 & Hocc0).
    rewrite Z.add_0_r in Hc0. rewrite (create_room_step _ _ _ _ _ _ Hc0).
    rewrite decide_True by done. apply IH; auto; [lia| |].
    + intros j Hj. destruct (Hprev (S j) ltac:(lia)) as (cj & Hcj & Hoj).
      exists cj. split; [|done]. rewrite <- Hcj. f_equal. lia.
    + rewrite <- Hc. f_equal. lia.
Qed.

(** Every candidate is taken: each call recurses, whatever the depth. *)
Lemma create_room_all_occupied depth : forall jid offset now t,
  (forall k : nat, exists c,
      generate_room_id hash jid (offset + Z.of_nat k) = Ok c /\ occupied t c) ->
  create_room hash depth jid offset now t = Raise RecursionError.
Proof.
  induction depth as [|depth IH]; intros jid offset now t Hall; [done|].
  destruct (Hall 0%nat) as (c0 & Hc0 & Hocc0). rewrite Z.add_0_r in Hc0.
  rewrite (create_room_step _ _ _ _ _ _ Hc0), decide_True by done.
  apply IH. intros k. destruct (Hall (S k)) as (c & Hc & Hocc).
  exists c. split; [|done]. rewrite <- Hc. f_equal. lia.
Qed.

(** Some candidate within [n] offsets is free: [create_room] returns a
    free code, at that candidate or an earlier one. *)
Lemma create_room_finds (n : nat) : forall depth jid offset now t c,
  Sqlite.int64 now -> (n < depth)%nat ->
  generate_room_id hash jid (offset + Z.of_nat n) = Ok c ->
  ~ occupied t c ->
  exists c', create_room hash depth jid offset now t = Ok (c', t ++ [mk_row c' jid now]) /\
             ~ occupied t c'.
Proof.
  induction n as [|n IH]; intros depth jid offset now t c Hnow Hd Hc Hfree;
    (destruct depth as [|depth]; [lia|]).
  - rewrite Z.add_0_r in Hc. exists c. split; [|done].
    rewrite (create_room_step _ _ _ _ _ _ Hc), decide_False by done.
    by rewrite bind_int_ok by done.
  - destruct (generate_room_id_total jid offset) as (c0 & Hc0 & _).
    rewrite (create_room_step _ _ _ _ _ _ Hc0). case_decide as Hocc.
    + apply (IH depth jid (offset + 1) now t c); auto; [lia|].
      rewrite <- Hc. f_equal. lia.
    + exists c0. split; [|done]. by rewrite bind_int_ok by done.
Qed.
End ConferenceMapsFacts.

(** ** Tables and traces *)

Module TableFacts.

Lemma filter_idemp {A} (P : A -> Prop) `{forall x, Decision (P x)} (l : list A) :
filter P (filter P l) = filter P l.
Proof. rewrite list_filter_filter. apply list_filter_iff. tauto. Qed.

Lemma unique_ids_filter (P : row -> Prop) `{forall r, Decision (P r)} (t : table) :
unique_ids t -> unique_ids (filter P t).
Proof.
unfold unique_ids. intros H0. eapply sublist_NoDup; [exact H0|].
apply fmap_sublist, sublist_filter.
Qed.

Lemma unique_jids_filter (P : row -> Prop) `{forall r, Decision (P r)} (t : table) :
unique_jids t -> unique_jids (filter P t).
Proof.
unfold unique_jids. intros H0. eapply sublist_NoDup; [exact H0|].
apply fmap_sublist, sublist_filter.
Qed.

Lemma stored_ids_bounded_filter (P : row -> Prop) `{forall r, Decision (P r)} (t : table) :
stored_ids_bounded t -> stored_ids_bounded (filter P t).
Proof.
unfold stored_ids_bounded. rewrite !Forall_forall. intros H0 r Hr.
apply list_elem_of_filter in Hr as [_ Hr]. auto.
Qed.

Lemma unique_ids_snoc (t : table) c jid now :
unique_ids t -> ~ occupied t c -> unique_ids (t ++ [mk_row c jid now]).
Proof.
unfold unique_ids, occupied. intros Hu Hfree. rewrite fmap_app. apply NoDup_app.
split_and!; [done | | apply NoDup_singleton].
intros x Hx. simpl. rewrite list_elem_of_singleton. by intros ->.
Qed.

Lemma unique_jids_snoc (t : table) c jid now :
unique_jids t -> jid ∉ row_jid <$> t -> unique_jids (t ++ [mk_row c jid now]).
Proof.
unfold unique_jids. intros Hu Hfree. rewrite fmap_app. apply NoDup_app.
split_and!; [done | | apply NoDup_singleton].
intros x Hx. simpl. rewrite list_elem_of_singleton. by intros ->.
Qed.

Lemma stored_ids_bounded_snoc (t : table) c jid now :
stored_ids_bounded t -> - 10 ^ 4 < c < 10 ^ 5 ->
stored_ids_bounded (t ++ [mk_row c jid now]).
Proof.
unfold stored_ids_bounded. intros Hb Hc. apply Forall_app. split; [done|].
by constructor.
Qed.

(** Under unique codes, the row found by identifier is the row found by
  its code. *)
Lemma fetchone_by_id_of_row (t1 t2 : table) r :
unique_ids (t1 ++ r :: t2) ->
Sqlite.fetchone (Sqlite.select_jid_where_id (row_id r) (t1 ++ r :: t2)) = Some (row_jid r).
Proof.
unfold unique_ids, Sqlite.select_jid_where_id. rewrite fmap_app, fmap_cons.
intros Hu. apply NoDup_app in Hu as (_ & Hu & _).
assert (row_id r ∉ row_id <$> t1) as Hfree.
{ intros Hin. apply (Hu _ Hin). apply list_elem_of_here. }
apply (SqliteFacts.fetchone_where_None row_id row_jid) in Hfree.
unfold Sqlite.fetchone in *. rewrite filter_app, fmap_app.
destruct (row_jid <$> filter (fun r0 => row_id r0 = row_id r) t1); [|done].
simpl. rewrite filter_cons. by case_decide.
Qed.

End TableFacts.

Section TraceFacts.
Variable hash : string -> Z.
Variable recursion_limit : nat.

Import SqliteFacts TableFacts.

Lemma find_by_jid_cases jid now t c t' :
  find_by_jid hash recursion_limit jid now t = Ok (c, t') ->
  (Sqlite.fetchone (Sqlite.select_id_where_jid jid t) = Some c /\ t' = t) \/
  (Sqlite.fetchone (Sqlite.select_id_where_jid jid t) = None /\
   create_room hash recursion_limit jid 0 now t = Ok (c, t')).
Proof.
  unfold find_by_jid. destruct (Sqlite.fetchone _) as [id|].
  - intros [= <- <-]. by left.
  - intros H. by right.
Qed.

Lemma clean_eq now t : Sqlite.int64 (now - EXPIRE_SECONDS) ->
  clean now t = Ok (Sqlite.delete_where_created_before (now - EXPIRE_SECONDS) t).
Proof. intros H. unfold clean. by rewrite bind_int_ok by done. Qed.

Lemma clean_ok now t t' : clean now t = Ok t' ->
  t' = Sqlite.delete_where_created_before (now - EXPIRE_SECONDS) t.
Proof.
  unfold clean. destruct (Sqlite.bind_int _) as [cutoff|] eqn:E; [|done].
  apply bind_int_inv in E as [-> _]. by intros [= <-].
Qed.

Lemma create_room_table_ok depth jid offset now t c t' :
  table_ok t -> create_room hash depth jid offset now t = Ok (c, t') -> table_ok t'.
Proof.
  intros [Hu Hb] H.
  apply create_room_ok in H as (k & _ & Hg & Hfree & _ & _ & ->).
  apply generate_room_id_bounded in Hg.
  split; [by apply unique_ids_snoc | by apply stored_ids_bounded_snoc].
Qed.

Lemma step_table_ok o now t : table_ok t -> table_ok (step hash recursion_limit o now t).
Proof.
  intros Hok. destruct o as [jid|jid offset|room_id|]; simpl.
  - destruct (find_by_jid hash recursion_limit jid now t) as [[c t']|] eqn:E; [|done].
    apply find_by_jid_cases in E as [[_ ->]|[_ E]]; [done|].
    by eapply create_room_table_ok.
  - destruct (create_room hash recursion_limit jid offset now t) as [[c t']|] eqn:E; [|done].
    by eapply create_room_table_ok.
  - done.
  - destruct (clean now t) as [t'|] eqn:E; [|done].
    apply clean_ok in E as ->. destruct Hok as [Hu Hb]. unfold Sqlite.delete_where_created_before.
    split; [by apply unique_ids_filter | by apply stored_ids_bounded_filter].
Qed.

Lemma run_table_ok tr : forall t, table_ok t -> table_ok (run hash recursion_limit tr t).
Proof.
  induction tr as [|[o now] tr IH]; intros t Hok; [done|].
  apply IH. by apply step_table_ok.
Qed.

Lemma reachable_table_ok t : reachable hash recursion_limit t -> table_ok t.
Proof.
  intros [tr <-]. apply run_table_ok. split; [constructor | constructor].
Qed.

Lemma step_unique_jids o now t : is_direct_create o = false ->
  unique_jids t -> unique_jids (step hash recursion_limit o now t).
Proof.
  intros Ho Hu. destruct o as [jid|jid offset|room_id|]; simpl in *; [|done|done|].
  - destruct (find_by_jid hash recursion_limit jid now t) as [[c t']|] eqn:E; [|done].
    apply find_by_jid_cases in E as [[_ ->]|[Hmiss E]]; [done|].
    apply create_room_ok in E as (k & _ & _ & _ & _ & _ & ->).
    apply unique_jids_snoc; [done|]. by apply fetchone_id_None.
  - destruct (clean now t) as [t'|] eqn:E; [|done].
    apply clean_ok in E as ->. by apply unique_jids_filter.
Qed.

Lemma run_unique_jids tr : forall t, api_trace tr = true ->
  unique_jids t -> unique_jids (run hash recursion_limit tr t).
Proof.
  induction tr as [|[o now] tr IH]; intros t Htr Hu; [done|].
  simpl in Htr. apply andb_true_iff in Htr as [Ho Htr].
  apply IH; [done|]. apply step_unique_jids; [|done].
  by apply negb_true_iff.
Qed.

(** Without a sweep the operations only append rows. *)
Lemma step_appends o now t : is_clean o = false ->
  exists extra, step hash recursion_limit o now t = t ++ extra.
Proof.
  intros Ho. destruct o as [jid|jid offset|room_id|]; simpl in *; [| | |done].
  - destruct (find_by_jid hash recursion_limit jid now t) as [[c t']|] eqn:E;
      [|exists []; by rewrite app_nil_r].
    apply find_by_jid_cases in E as [[_ ->]|[_ E]]; [exists []; by rewrite app_nil_r|].
    apply create_room_ok in E as (k & _ & _ & _ & _ & _ & ->). eauto.
  - destruct (create_room hash recursion_limit jid offset now t) as [[c t']|] eqn:E;
      [|exists []; by rewrite app_nil_r].
    apply create_room_ok in E as (k & _ & _ & _ & _ & _ & ->). eauto.
  - exists []. by rewrite app_nil_r.
Qed.

Lemma run_appends tr : forall t, sweep_free tr = true ->
  exists extra, run hash recursion_limit tr t = t ++ extra.
Proof.
  induction tr as [|[o now] tr IH]; intros t Htr; [exists []; by rewrite app_nil_r|].
  simpl in Htr. apply andb_true_iff in Htr as [Ho Htr].
  destruct (step_appends o now t) as [e1 He1]; [by apply negb_true_iff|].
  destruct (IH (t ++ e1) Htr) as [e2 He2].
  exists (e1 ++ e2). cbn [run foldl fst snd]. fold (run hash recursion_limit tr).
  rewrite He1. unfold run in He2 |- *. rewrite He2. by rewrite app_assoc.
Qed.

(** After [find_by_jid] returned [c], the row of [jid] is there and is
    the first one of that identifier. *)
Lemma find_by_jid_stored jid now t c t' :
  find_by_jid hash recursion_limit jid now t = Ok (c, t') ->
  Sqlite.fetchone (Sqlite.select_id_where_jid jid t') = Some c.
Proof.
  intros H. apply find_by_jid_cases in H as [[H ->]|[Hmiss H]]; [done|].
  apply create_room_ok in H as (k & _ & _ & _ & _ & _ & ->).
  apply (fetchone_where_snoc row_jid row_id t (mk_row c jid now) Hmiss).
Qed.
End TraceFacts.

(** ** The claims *)

(** Why [create_room] raises. *)
Lemma create_room_raise hash depth : forall jid offset now t e,
  create_room hash depth jid offset now t = Raise e ->
  (e = OverflowError /\ ~ Sqlite.int64 now) \/
  (e = RecursionError /\
   forall j : nat, (j < depth)%nat -> exists cj,
     generate_room_id hash jid (offset + Z.of_nat j) = Ok cj /\ occupied t cj).
Proof.
  induction depth as [|depth IH]; intros jid offset now t e H.
  - right. injection H as <-. split; [done|]. intros j Hj. lia.
  - destruct (generate_room_id_total hash jid offset) as (c0 & Hc0 & _).
    rewrite (create_room_step _ _ _ _ _ _ _ Hc0) in H. case_decide as Hocc.
    + apply IH in H as [?|[-> Hall]]; [by left|]. right. split; [done|].
      intros [|j] Hj.
      * exists c0. by rewrite Z.add_0_r.
      * destruct (Hall j ltac:(lia)) as (cj & Hcj & Hoj). exists cj. split; [|done].
        rewrite <- Hcj. f_equal. lia.
    + destruct (decide (Sqlite.int64 now)) as [Hi|Hi].
      * by rewrite SqliteFacts.bind_int_ok in H by done.
      * rewrite SqliteFacts.bind_int_overflow in H by done. injection H as <-. by left.
Qed.

(** The candidates of all the offsets the call stack admits are occupied:
    the last call finds the stack used up. *)
Lemma create_room_stack_used_up hash depth : forall jid offset now t,
  (forall j : nat, (j < depth)%nat -> exists cj,
      generate_room_id hash jid (offset + Z.of_nat j) = Ok cj /\ occupied t cj) ->
  create_room hash depth jid offset now t = Raise RecursionError.
Proof.
  induction depth as [|depth IH]; intros jid offset now t Hall; [done|].
  destruct (Hall 0%nat ltac:(lia)) as (c0 & Hc0 & Hocc0). rewrite Z.add_0_r in Hc0.
  rewrite (create_room_step _ _ _ _ _ _ _ Hc0), decide_True by done.
  apply IH. intros j Hj. destruct (Hall (S j) ltac:(lia)) as (c & Hc & Hocc).
  exists c. split; [|done]. rewrite <- Hc. f_equal. lia.
Qed.


Lemma sample_hash_in_range : hash_in_range sample_hash.
Proof.
  intros s. unfold sample_hash, to_signed64.
  match goal with |- context [?x mod 2 ^ 64] => pose proof (Z.mod_pos_bound x (2 ^ 64)) end.
  lia.
Qed.

Lemma full_table_occupied c : 0 <= c < 100000 -> occupied full_table c.
Proof.
  intros Hc. unfold occupied, full_table. rewrite <- list_fmap_compose.
  apply list_elem_of_fmap. exists (Z.to_nat c). split.
  - simpl. lia.
  - apply elem_of_seq. lia.
Qed.

(** Range of the candidates when [hash] is a [Py_hash_t] and the offset is
    one the retry loop uses. *)
Lemma generate_room_id_range hash jid offset :
  hash_in_range hash -> 0 <= offset ->
  exists c, generate_room_id hash jid offset = Ok c /\ -1 <= c < 10 ^ 5 /\
    (c = -1 -> hash jid = - 2 ^ 63 /\ offset = 0).
Proof.
  intros Hr Ho. rewrite generate_room_id_eq. eexists. split; [done|].
  specialize (Hr jid). unfold room_code, sys_maxsize.
  destruct (Z.ltb_spec (hash jid) 0);
  match goal with |- context [0 <=? ?h] => destruct (Z.leb_spec 0 h) end;
  try match goal with |- context [?a mod ?b] => pose proof (Z.mod_pos_bound a b) end;
  try match goal with |- context [?a <? ?b] => destruct (Z.ltb_spec a b) end;
  lia.
Qed.

Lemma generate_room_id_minus_one hash jid :
  hash jid = - 2 ^ 63 -> generate_room_id hash jid 0 = Ok (-1).
Proof. intros H. rewrite generate_room_id_eq, H. reflexivity. Qed.

(** For every hash some offset of the retry loop yields the code 0. *)
Lemma generate_room_id_hits_zero hash jid :
  hash_in_range hash ->
  exists offset, 0 < offset <= 10 ^ 5 /\ generate_room_id hash jid offset = Ok 0.
Proof.
  intros Hr. specialize (Hr jid).
  set (base := if hash jid <? 0 then hash jid + sys_maxsize else hash jid).
  assert (-1 <= base) as Hb.
  { unfold base, sys_maxsize. destruct (Z.ltb_spec (hash jid) 0); lia. }
  exists ((- base - 1) mod 10 ^ 5 + 1).
  pose proof (Z.mod_pos_bound (- base - 1) (10 ^ 5)).
  split; [lia|]. rewrite generate_room_id_eq. fold base. f_equal.
  unfold room_code. destruct (Z.leb_spec 0 (base + ((- base - 1) mod 10 ^ 5 + 1))); [|lia].
  replace (base + ((- base - 1) mod 10 ^ 5 + 1))
    with ((base + 1) + (- base - 1) mod 10 ^ 5) by lia.
  rewrite Z.add_mod_idemp_r by lia.
  replace (base + 1 + (- base - 1)) with 0 by lia. reflexivity.
Qed.

(** C1. The claim is that [__generate_room_id] returns a positive code
    below [10 ^ 5] for every identifier and offset. The code returns 0 at
    offset 0 for every identifier whose hash is a non-negative multiple of
    [10 ^ 5], as the hash of the empty string is: [str(h)[-5:]] is then
    ["00000"], or ["0"] for [h = 0]. *)
Theorem generate_room_id_zero hash jid :
  0 <= hash jid -> hash jid mod 10 ^ 5 = 0 -> generate_room_id hash jid 0 = Ok 0.
Proof.
  intros Hpos Hmod. rewrite generate_room_id_eq.
  destruct (Z.ltb_spec (hash jid) 0); [lia|].
  unfold room_code. rewrite Z.add_0_r.
  destruct (Z.leb_spec 0 (hash jid)); [|lia]. by rewrite Hmod.
Qed.

Lemma generate_room_id_zero_witness :
  0 <= sample_hash "" /\ sample_hash "" mod 10 ^ 5 = 0 /\
  generate_room_id sample_hash "" 0 = Ok 0.
Proof.
  assert (H1 : 0 <= sample_hash "") by (vm_compute; discriminate).
  assert (H2 : sample_hash "" mod 10 ^ 5 = 0) by (vm_compute; reflexivity).
  exact (conj H1 (conj H2 (generate_room_id_zero sample_hash "" H1 H2))).
Defined.

(** C2, as amended. In every table reached from the empty table by a
    sequence of [find_by_jid], [find_by_id] and [clean] operations, rooms
    being created by [find_by_jid] only, no two rows share a code and no
    two rows share an identifier. *)
Theorem uniqueness_invariant hash limit tr :
  api_trace tr = true ->
  unique_ids (run hash limit tr []) /\ unique_jids (run hash limit tr []).
Proof.
  intros Htr. split.
  - apply (run_table_ok hash limit tr []). split; constructor.
  - apply run_unique_jids; [done | constructor].
Qed.

Lemma uniqueness_invariant_witness :
  api_trace [(FindByJid "a", 10); (FindByJid "b", 11); (FindById 97, 12);
             (Clean, 13); (FindByJid "a", 14)] = true /\
  unique_ids (run sample_hash sample_limit
                [(FindByJid "a", 10); (FindByJid "b", 11); (FindById 97, 12);
                 (Clean, 13); (FindByJid "a", 14)] []) /\
  unique_jids (run sample_hash sample_limit
                [(FindByJid "a", 10); (FindByJid "b", 11); (FindById 97, 12);
                 (Clean, 13); (FindByJid "a", 14)] []).
Proof.
  assert (H : api_trace [(FindByJid "a", 10); (FindByJid "b", 11); (FindById 97, 12);
                         (Clean, 13); (FindByJid "a", 14)] = true) by reflexivity.
  exact (conj H (uniqueness_invariant sample_hash sample_limit _ H)).
Defined.

(** The code column stays unique under direct calls of [create_room] too. *)
Lemma reachable_unique_ids hash limit t : reachable hash limit t -> unique_ids t.
Proof. intros H. by apply reachable_table_ok in H as [? _]. Qed.

Lemma create_room_twice_duplicates_jid :
  run sample_hash sample_limit [(CreateRoom "a" 0, 10); (CreateRoom "a" 0, 11)] []
    = [mk_row 97 "a" 10; mk_row 98 "a" 11] /\
  ~ unique_jids (run sample_hash sample_limit
                   [(CreateRoom "a" 0, 10); (CreateRoom "a" 0, 11)] []).
Proof.
  assert (E : run sample_hash sample_limit [(CreateRoom "a" 0, 10); (CreateRoom "a" 0, 11)] []
              = [mk_row 97 "a" 10; mk_row 98 "a" 11]) by (vm_compute; reflexivity).
  split; [exact E|]. rewrite E. unfold unique_jids. simpl.
  intros H. apply NoDup_cons in H as [H _]. apply H. apply list_elem_of_here.
Qed.

(** C3. Round trip: in every table reachable from the empty one, when
    [find_by_jid] returns the code [c] for the identifier [jid], creating
    the row if there was none, [find_by_id c] on the resulting table returns
    [jid]. *)
Theorem round_trip hash limit t jid now c t' :
  reachable hash limit t ->
  find_by_jid hash limit jid now t = Ok (c, t') ->
  find_by_id c t' = Ok (Some jid).
Proof.
  intros Hreach H. apply reachable_table_ok in Hreach as [Hu Hb].
  apply find_by_jid_cases in H as [[Hhit ->]|[_ H]].
  - apply (SqliteFacts.fetchone_where_Some row_jid row_id) in Hhit
      as (t1 & r & t2 & -> & <- & <- & _).
    assert (- 10 ^ 4 < row_id r < 10 ^ 5) as Hr.
    { unfold stored_ids_bounded in Hb. apply Forall_app in Hb as [_ Hb].
      by apply Forall_cons in Hb as [? _]. }
    rewrite find_by_id_eq by by apply bounded_int64.
    by rewrite TableFacts.fetchone_by_id_of_row.
  - apply create_room_ok in H as (k & _ & Hg & Hfree & _ & _ & ->).
    apply generate_room_id_bounded in Hg.
    rewrite find_by_id_eq by by apply bounded_int64.
    pose proof (TableFacts.fetchone_by_id_of_row t [] (mk_row c jid now)) as E.
    simpl in E. rewrite E; [done|]. by apply TableFacts.unique_ids_snoc.
Qed.

Lemma round_trip_witness :
  reachable sample_hash sample_limit [] /\
  find_by_jid sample_hash sample_limit "room1@example.com" 1700000000 []
    = Ok (41613, [mk_row 41613 "room1@example.com" 1700000000]) /\
  find_by_id 41613 [mk_row 41613 "room1@example.com" 1700000000]
    = Ok (Some "room1@example.com").
Proof.
  assert (H1 : reachable sample_hash sample_limit []) by (by exists []).
  assert (H2 : find_by_jid sample_hash sample_limit "room1@example.com" 1700000000 []
               = Ok (41613, [mk_row 41613 "room1@example.com" 1700000000]))
    by (vm_compute; reflexivity).
  exact (conj H1 (conj H2 (round_trip _ _ _ _ _ _ _ H1 H2))).
Defined.

(** C4. Once [find_by_jid] has returned [c] for [jid], every later call for
    [jid], after any operations other than the expiry sweep and at any clock
    reading, returns [c] again and leaves the table as it finds it. *)
Theorem find_by_jid_stable hash limit t jid now c t1 tr now' :
  find_by_jid hash limit jid now t = Ok (c, t1) ->
  sweep_free tr = true ->
  find_by_jid hash limit jid now' (run hash limit tr t1) = Ok (c, run hash limit tr t1).
Proof.
  intros H Htr. apply find_by_jid_stored in H.
  destruct (run_appends hash limit tr t1 Htr) as [extra ->].
  unfold find_by_jid, Sqlite.select_id_where_jid in *.
  by rewrite (SqliteFacts.fetchone_where_app row_jid row_id jid t1 extra c H).
Qed.

Lemma find_by_jid_stable_witness :
  find_by_jid sample_hash sample_limit "a" 10 [] = Ok (97, [mk_row 97 "a" 10]) /\
  sweep_free [(FindByJid "b", 11); (CreateRoom "a" 0, 12); (FindById 97, 13)] = true /\
  find_by_jid sample_hash sample_limit "a" 14
    (run sample_hash sample_limit
       [(FindByJid "b", 11); (CreateRoom "a" 0, 12); (FindById 97, 13)] [mk_row 97 "a" 10])
  = Ok (97, run sample_hash sample_limit
              [(FindByJid "b", 11); (CreateRoom "a" 0, 12); (FindById 97, 13)]
              [mk_row 97 "a" 10]).
Proof.
  assert (H1 : find_by_jid sample_hash sample_limit "a" 10 [] = Ok (97, [mk_row 97 "a" 10]))
    by (vm_compute; reflexivity).
  assert (H2 : sweep_free [(FindByJid "b", 11); (CreateRoom "a" 0, 12); (FindById 97, 13)]
               = true) by reflexivity.
  exact (conj H1 (conj H2 (find_by_jid_stable _ _ _ _ _ _ _ _ 14 H1 H2))).
Defined.

(** C5, as amended. Collision resolution: when the candidates of the
    offsets below [k] are all occupied and the candidate [c] of offset [k]
    is free, which makes [k] the smallest offset with a free candidate,
    [create_room] started at offset 0 returns [c] and appends the row
    [(c, jid, now)] if the call stack admits the [k] nested retries, and
    raises [RecursionError] if it does not; the clock reading fits an
    INTEGER. A code that is returned is not an occupied one, and it is the
    candidate of offset 1 or later when the one of offset 0 collides. *)
Theorem create_room_first_free hash depth jid now t (k : nat) c :
  Sqlite.int64 now ->
  (forall j : nat, (j < k)%nat -> exists cj,
      generate_room_id hash jid (Z.of_nat j) = Ok cj /\ occupied t cj) ->
  generate_room_id hash jid (Z.of_nat k) = Ok c ->
  ~ occupied t c ->
  create_room hash depth jid 0 now t =
    if decide (k < depth)%nat then Ok (c, t ++ [mk_row c jid now])
    else Raise RecursionError.
Proof.
  intros Hnow Hprev Hc Hfree. destruct (decide (k < depth)%nat) as [Hd|Hd].
  - by apply (create_room_probe_from hash k).
  - apply create_room_stack_used_up. intros j Hj. rewrite Z.add_0_l. apply Hprev. lia.
Qed.

Lemma create_room_first_free_witness :
  Sqlite.int64 20 /\
  (forall j : nat, (j < 3)%nat -> exists cj,
      generate_room_id sample_hash "a" (Z.of_nat j) = Ok cj /\
      occupied [mk_row 97 "x" 1; mk_row 98 "y" 2; mk_row 99 "z" 3] cj) /\
  generate_room_id sample_hash "a" (Z.of_nat 3) = Ok 100 /\
  ~ occupied [mk_row 97 "x" 1; mk_row 98 "y" 2; mk_row 99 "z" 3] 100 /\
  create_room sample_hash sample_limit "a" 0 20
      [mk_row 97 "x" 1; mk_row 98 "y" 2; mk_row 99 "z" 3]
    = if decide (3 < sample_limit)%nat
      then Ok (100, [mk_row 97 "x" 1; mk_row 98 "y" 2; mk_row 99 "z" 3]
                      ++ [mk_row 100 "a" 20])
      else Raise RecursionError.
Proof.
  assert (H1 : Sqlite.int64 20) by (vm_compute; split; discriminate).
  assert (H3 : forall j : nat, (j < 3)%nat -> exists cj,
             generate_room_id sample_hash "a" (Z.of_nat j) = Ok cj /\
             occupied [mk_row 97 "x" 1; mk_row 98 "y" 2; mk_row 99 "z" 3] cj).
  { intros [|[|[|j]]] Hj; [exists 97 | exists 98 | exists 99 | lia];
      (split; [vm_compute; reflexivity | compute_done]). }
  assert (H4 : generate_room_id sample_hash "a" (Z.of_nat 3) = Ok 100)
    by (vm_compute; reflexivity).
  assert (H5 : ~ occupied [mk_row 97 "x" 1; mk_row 98 "y" 2; mk_row 99 "z" 3] 100)
    by compute_done.
  exact (conj H1 (conj H3 (conj H4 (conj H5
    (create_room_first_free sample_hash sample_limit "a" 20 _ 3 100 H1 H3 H4 H5))))).
Defined.

(** With the default recursion limit a run of 1000 occupied candidates ends
    the allocation in [RecursionError], although the candidate of offset
    1000 is free and is the first free one. *)
Lemma create_room_gives_up_before_first_free :
  create_room sample_hash sample_limit "a" 0 20 (occupied_run 97 1000)
    = Raise RecursionError /\
  generate_room_id sample_hash "a" 1000 = Ok 1097 /\
  ~ occupied (occupied_run 97 1000) 1097 /\
  forall j : nat, (j < 1000)%nat -> exists cj,
    generate_room_id sample_hash "a" (Z.of_nat j) = Ok cj /\
    occupied (occupied_run 97 1000) cj.
Proof.
  assert (E : create_room sample_hash sample_limit "a" 0 20 (occupied_run 97 1000)
              = Raise RecursionError) by (vm_compute; reflexivity).
  split_and!; [exact E | by vm_compute | compute_done |].
  apply create_room_raise in E as [[? _]|[_ Hall]]; [done|].
  intros j Hj. destruct (Hall j Hj) as (cj & Hcj & Hocc). exists cj.
  by rewrite Z.add_0_l in Hcj.
Qed.

(** C6, as amended. [create_room] always ends, after at most as many
    probes as the call stack admits nested calls: either it returns the
    candidate of the smallest offset below that number whose candidate is
    free, appending its row, or the candidates of all those offsets are
    occupied and it raises [RecursionError]. There is no other outcome and
    no exhaustion check; the clock reading fits an INTEGER. *)
Theorem create_room_terminates hash depth jid now t :
  Sqlite.int64 now ->
  (exists (k : nat) c,
      (k < depth)%nat /\
      generate_room_id hash jid (Z.of_nat k) = Ok c /\ ~ occupied t c /\
      (forall j : nat, (j < k)%nat -> exists cj,
          generate_room_id hash jid (Z.of_nat j) = Ok cj /\ occupied t cj) /\
      create_room hash depth jid 0 now t = Ok (c, t ++ [mk_row c jid now])) \/
  ((forall j : nat, (j < depth)%nat -> exists cj,
       generate_room_id hash jid (Z.of_nat j) = Ok cj /\ occupied t cj) /\
   create_room hash depth jid 0 now t = Raise RecursionError).
Proof.
  intros Hnow.
  destruct (create_room hash depth jid 0 now t) as [[c t']|e] eqn:E.
  - left. apply create_room_ok in E as (k & Hk & Hg & Hfree & Hprev & _ & ->).
    exists k, c. rewrite Z.add_0_l in Hg. split_and!; [done..| |done].
    intros j Hj. destruct (Hprev j Hj) as (cj & Hcj & Hocc). exists cj.
    by rewrite Z.add_0_l in Hcj.
  - right. apply create_room_raise in E as [[_ ?]|[-> Hall]]; [done|].
    split; [|done]. intros j Hj. destruct (Hall j Hj) as (cj & Hcj & Hocc).
    exists cj. by rewrite Z.add_0_l in Hcj.
Qed.

Lemma create_room_terminates_witness :
  Sqlite.int64 20 /\
  ((exists (k : nat) c,
       (k < sample_limit)%nat /\
       generate_room_id sample_hash "a" (Z.of_nat k) = Ok c /\
       ~ occupied [mk_row 97 "x" 1] c /\
       (forall j : nat, (j < k)%nat -> exists cj,
           generate_room_id sample_hash "a" (Z.of_nat j) = Ok cj /\
           occupied [mk_row 97 "x" 1] cj) /\
       create_room sample_hash sample_limit "a" 0 20 [mk_row 97 "x" 1]
         = Ok (c, [mk_row 97 "x" 1] ++ [mk_row c "a" 20])) \/
   ((forall j : nat, (j < sample_limit)%nat -> exists cj,
        generate_room_id sample_hash "a" (Z.of_nat j) = Ok cj /\
        occupied [mk_row 97 "x" 1] cj) /\
    create_room sample_hash sample_limit "a" 0 20 [mk_row 97 "x" 1]
      = Raise RecursionError)).
Proof.
  assert (H : Sqlite.int64 20) by (vm_compute; split; discriminate).
  exact (conj H (create_room_terminates sample_hash sample_limit "a" 20 [mk_row 97 "x" 1] H)).
Defined.

(** With the default recursion limit the allocation ends in
    [RecursionError] on a table that holds 1000 of the [10 ^ 5] codes: the
    code space is far from exhausted, the code 0 for one is free. *)
Lemma create_room_gives_up_with_free_codes :
  create_room sample_hash sample_limit "room1@example.com" 0 20 (occupied_run 41613 1000)
    = Raise RecursionError /\
  length (occupied_run 41613 1000) = 1000%nat /\
  ~ occupied (occupied_run 41613 1000) 0.
Proof.
  split_and!; [by vm_compute | by vm_compute | compute_done].
Qed.

(** When some code from 0 to [10 ^ 5 - 1] is free, a call stack admitting
    more than [10 ^ 5] nested calls would let [create_room] reach it. *)
Lemma create_room_returns_on_deep_stack hash depth jid now t c0 :
  hash_in_range hash -> Sqlite.int64 now ->
  0 <= c0 < 10 ^ 5 -> ~ occupied t c0 ->
  (Z.to_nat (10 ^ 5) < depth)%nat ->
  exists c, create_room hash depth jid 0 now t = Ok (c, t ++ [mk_row c jid now]) /\
            ~ occupied t c.
Proof.
  intros Hr Hnow Hc0 Hfree Hd. specialize (Hr jid).
  set (base := if hash jid <? 0 then hash jid + sys_maxsize else hash jid).
  assert (-1 <= base) as Hb.
  { unfold base, sys_maxsize. destruct (Z.ltb_spec (hash jid) 0); lia. }
  pose proof (Z.mod_pos_bound (c0 - base - 1) (10 ^ 5) ltac:(lia)) as Hm.
  set (k := (c0 - base - 1) mod 10 ^ 5 + 1) in *.
  apply (create_room_finds hash (Z.to_nat k) depth jid 0 now t c0); auto; [lia|].
  rewrite generate_room_id_eq. fold base. f_equal.
  rewrite Z2Nat.id, Z.add_0_l by lia.
  unfold room_code. destruct (Z.leb_spec 0 (base + k)); [|lia].
  unfold k. replace (base + ((c0 - base - 1) mod 10 ^ 5 + 1))
    with ((base + 1) + (c0 - base - 1) mod 10 ^ 5) by lia.
  rewrite Z.add_mod_idemp_r by lia.
  replace (base + 1 + (c0 - base - 1)) with c0 by lia. apply Z.mod_small. lia.
Qed.

(** On the full table every depth ends in [RecursionError]. *)
Lemma full_table_every_depth depth now :
  create_room sample_hash depth "room1@example.com" 0 now full_table
    = Raise RecursionError.
Proof.
  apply create_room_all_occupied. intros k.
  assert (Hh : sample_hash "room1@example.com" = 5553957011276541613)
    by (vm_compute; reflexivity).
  rewrite generate_room_id_eq, Hh.
  change (5553957011276541613 <? 0) with false. cbv iota.
  eexists. split; [reflexivity|]. apply full_table_occupied.
  unfold room_code.
  destruct (Z.leb_spec 0 (5553957011276541613 + (0 + Z.of_nat k))); [|lia].
  apply Z.mod_pos_bound. lia.
Qed.

Lemma create_room_full_table_recursion_error :
  ~ (exists N : nat, forall depth : nat, (N <= depth)%nat ->
       create_room sample_hash depth "room1@example.com" 0 1700000000 full_table
         <> Raise RecursionError).
Proof.
  intros [N H]. apply (H N (Nat.le_refl N)). apply full_table_every_depth.
Qed.

(** C7. The sweep [clean] at the clock reading [now] keeps exactly the rows
    with [created_time >= now - EXPIRE_SECONDS], in their order: a row is
    deleted if and only if [created_time < now - EXPIRE_SECONDS]. A row
    created at [now - EXPIRE_SECONDS - 1] is gone, a row created at
    [now - EXPIRE_SECONDS + 1] stays, and a second sweep at the same [now]
    deletes nothing. *)
Theorem clean_deletes_exactly_expired now t :
  Sqlite.int64 (now - EXPIRE_SECONDS) ->
  exists t', clean now t = Ok t' /\
    t' = filter (fun r => now - EXPIRE_SECONDS <= row_created_time r) t /\
    (forall r, r ∈ t' <-> r ∈ t /\ ~ row_created_time r < now - EXPIRE_SECONDS) /\
    (forall r, row_created_time r = now - EXPIRE_SECONDS - 1 -> r ∉ t') /\
    (forall r, r ∈ t -> row_created_time r = now - EXPIRE_SECONDS + 1 -> r ∈ t') /\
    clean now t' = Ok t'.
Proof.
  intros Hnow. eexists. split; [by apply clean_eq|].
  unfold Sqlite.delete_where_created_before.
  assert (forall r, r ∈ filter (fun r => ~ row_created_time r < now - EXPIRE_SECONDS) t
                    <-> r ∈ t /\ ~ row_created_time r < now - EXPIRE_SECONDS) as Hin.
  { intros r. rewrite list_elem_of_filter. tauto. }
  split_and!.
  - apply list_filter_iff. intros r. lia.
  - exact Hin.
  - intros r Hr Hin'. apply Hin in Hin' as [_ Hkeep]. lia.
  - intros r Hr Hc. apply Hin. split; [done | lia].
  - rewrite clean_eq by done. unfold Sqlite.delete_where_created_before.
    by rewrite TableFacts.filter_idemp.
Qed.

Lemma clean_deletes_exactly_expired_witness :
  Sqlite.int64 (300000 - EXPIRE_SECONDS) /\
  exists t', clean 300000 [mk_row 1 "a" 40799; mk_row 2 "b" 40800; mk_row 3 "c" 40801]
               = Ok t' /\
    t' = filter (fun r => 300000 - EXPIRE_SECONDS <= row_created_time r)
           [mk_row 1 "a" 40799; mk_row 2 "b" 40800; mk_row 3 "c" 40801] /\
    (forall r, r ∈ t' <->
       r ∈ [mk_row 1 "a" 40799; mk_row 2 "b" 40800; mk_row 3 "c" 40801] /\
       ~ row_created_time r < 300000 - EXPIRE_SECONDS) /\
    (forall r, row_created_time r = 300000 - EXPIRE_SECONDS - 1 -> r ∉ t') /\
    (forall r, r ∈ [mk_row 1 "a" 40799; mk_row 2 "b" 40800; mk_row 3 "c" 40801] ->
       row_created_time r = 300000 - EXPIRE_SECONDS + 1 -> r ∈ t') /\
    clean 300000 t' = Ok t'.
Proof.
  assert (H : Sqlite.int64 (300000 - EXPIRE_SECONDS)) by (vm_compute; split; discriminate).
  exact (conj H (clean_deletes_exactly_expired 300000 _ H)).
Defined.

(** C10. A row whose [created_time] equals [now - EXPIRE_SECONDS] survives
    the sweep at [now]: the comparison of the DELETE statement is strict. *)
Theorem clean_keeps_boundary now t r :
  Sqlite.int64 (now - EXPIRE_SECONDS) ->
  r ∈ t -> row_created_time r = now - EXPIRE_SECONDS ->
  exists t', clean now t = Ok t' /\ r ∈ t'.
Proof.
  intros Hnow Hr Hc. eexists. split; [by apply clean_eq|].
  unfold Sqlite.delete_where_created_before. apply list_elem_of_filter.
  split; [lia | done].
Qed.

Lemma clean_keeps_boundary_witness :
  Sqlite.int64 (300000 - EXPIRE_SECONDS) /\
  mk_row 2 "b" 40800 ∈ [mk_row 1 "a" 40799; mk_row 2 "b" 40800; mk_row 3 "c" 40801] /\
  row_created_time (mk_row 2 "b" 40800) = 300000 - EXPIRE_SECONDS /\
  exists t', clean 300000 [mk_row 1 "a" 40799; mk_row 2 "b" 40800; mk_row 3 "c" 40801]
               = Ok t' /\ mk_row 2 "b" 40800 ∈ t'.
Proof.
  assert (H1 : Sqlite.int64 (300000 - EXPIRE_SECONDS)) by (vm_compute; split; discriminate).
  assert (H2 : mk_row 2 "b" 40800 ∈
               [mk_row 1 "a" 40799; mk_row 2 "b" 40800; mk_row 3 "c" 40801])
    by (apply list_elem_of_further, list_elem_of_here).
  assert (H3 : row_created_time (mk_row 2 "b" 40800) = 300000 - EXPIRE_SECONDS)
    by reflexivity.
  exact (conj H1 (conj H2 (conj H3 (clean_keeps_boundary 300000 _ _ H1 H2 H3)))).
Defined.

(** The [id] branch of the handler, for a query without a usable
    [conference] parameter. *)
Lemma do_GET_id_branch hash limit (query : gmap string (list string)) v rest now t :
  (query !! "conference" = None \/ query !! "conference" = Some []) ->
  query !! "id" = Some (v :: rest) ->
  do_GET hash limit "/conferenceMapper" query now t =
    match parse_room_id v with
    | None => (Ok (JsonResponse 400 [("message", JString "Invalid ID")]), t)
    | Some room_id =>
        if decide (Sqlite.int64 room_id) then
          match Sqlite.fetchone (Sqlite.select_jid_where_id room_id t) with
          | None => (Ok (JsonResponse 404 [("message", JString "Room ID not found")]), t)
          | Some jid =>
              (Ok (JsonResponse 200
                     [("message", JString "Successfully retrieved conference mapping");
                      ("id", JInt room_id); ("conference", JString jid)]), t)
          end
        else (Raise OverflowError, t)
    end.
Proof.
  intros Hconf Hid. unfold do_GET.
  rewrite decide_False by done. rewrite decide_True by done.
  assert (match query !! "conference" with Some (_ :: _) => False | _ => True end) as Hc
    by (destruct Hconf as [-> | ->]; done).
  destruct (query !! "conference") as [[|? ?]|]; try done; rewrite Hid;
    (destruct (parse_room_id v) as [room_id|]; [|done]);
    (case_decide as Hi;
     [rewrite find_by_id_eq by done; by destruct (Sqlite.fetchone _)
     |unfold find_by_id, lookup_id; by rewrite SqliteFacts.bind_int_overflow by done]).
Qed.

(** A row with the code 0 cannot be looked up through the handler: the
    test [room_id <= 0] answers "Invalid ID" before the table is read. *)
Lemma do_GET_rejects_code_zero hash limit now t :
  do_GET hash limit "/conferenceMapper" {[ "id" := ["0"] ]} now t
    = (Ok (JsonResponse 400 [("message", JString "Invalid ID")]), t).
Proof. reflexivity. Qed.

(** C8. The claim is that a positive integer [id] without a mapping is
    answered by 404. For [id=9223372036854775808], which is [2 ^ 63], the
    parameter passes [int()] and the test [room_id <= 0], then
    [find_by_id] raises [OverflowError] when the value is bound to the
    SELECT statement; this call is outside the [try] block, so the
    exception leaves [do_GET] and no response is written, whatever the
    table holds. *)
Theorem do_GET_id_overflow hash limit now t :
  parse_room_id "9223372036854775808" = Some (2 ^ 63) /\
  find_by_id (2 ^ 63) t = Raise OverflowError /\
  do_GET hash limit "/conferenceMapper" {[ "id" := ["9223372036854775808"] ]} now t
    = (Raise OverflowError, t).
Proof. split_and!; reflexivity. Qed.

(** C9. When the query has a [conference] parameter with at least one
    value, [do_GET] on [/conferenceMapper] answers from [find_by_jid] on its
    first value: 200 with the code, or 500 when the allocation raises. The
    [id] parameter plays no part: setting it to anything, or removing it,
    gives the same response and the same table. *)
Theorem do_GET_conference_first hash limit (query : gmap string (list string))
    jid rest now t :
  query !! "conference" = Some (jid :: rest) ->
  do_GET hash limit "/conferenceMapper" query now t =
    match find_by_jid hash limit jid now t with
    | Ok (room_id, t') =>
        (Ok (JsonResponse 200
               [("message", JString "Successfully retrieved conference mapping");
                ("id", JInt room_id); ("conference", JString jid)]), t')
    | Raise _ =>
        (Ok (JsonResponse 500
               [("message", JString "ID allocation failed");
                ("conference", JString jid)]), t)
    end /\
  (forall ids, do_GET hash limit "/conferenceMapper" (<["id" := ids]> query) now t
               = do_GET hash limit "/conferenceMapper" query now t) /\
  do_GET hash limit "/conferenceMapper" (delete "id" query) now t
    = do_GET hash limit "/conferenceMapper" query now t.
Proof.
  intros Hq. unfold do_GET.
  rewrite !decide_False by done. rewrite !decide_True by done.
  split_and!.
  - rewrite Hq. by destruct (find_by_jid hash limit jid now t) as [[? ?]|].
  - intros ids. by rewrite lookup_insert_ne, Hq by done.
  - by rewrite lookup_delete_ne, Hq by done.
Qed.

Lemma do_GET_conference_first_witness :
  (<["conference" := ["a"]]> {[ "id" := ["0"] ]} : gmap string (list string))
    !! "conference" = Some ("a" :: []) /\
  (do_GET sample_hash sample_limit "/conferenceMapper"
     (<["conference" := ["a"]]> {[ "id" := ["0"] ]}) 10 [] =
    match find_by_jid sample_hash sample_limit "a" 10 [] with
    | Ok (room_id, t') =>
        (Ok (JsonResponse 200
               [("message", JString "Successfully retrieved conference mapping");
                ("id", JInt room_id); ("conference", JString "a")]), t')
    | Raise _ =>
        (Ok (JsonResponse 500
               [("message", JString "ID allocation failed");
                ("conference", JString "a")]), [])
    end /\
  (forall ids, do_GET sample_hash sample_limit "/conferenceMapper"
                 (<["id" := ids]> (<["conference" := ["a"]]> {[ "id" := ["0"] ]})) 10 []
               = do_GET sample_hash sample_limit "/conferenceMapper"
                   (<["conference" := ["a"]]> {[ "id" := ["0"] ]}) 10 []) /\
  do_GET sample_hash sample_limit "/conferenceMapper"
      (delete "id" (<["conference" := ["a"]]> {[ "id" := ["0"] ]})) 10 []
    = do_GET sample_hash sample_limit "/conferenceMapper"
        (<["conference" := ["a"]]> {[ "id" := ["0"] ]}) 10 []).
Proof.
  assert (H : (<["conference" := ["a"]]> {[ "id" := ["0"] ]} : gmap string (list string))
                !! "conference" = Some ("a" :: [])) by reflexivity.
  exact (conj H (do_GET_conference_first sample_hash sample_limit _ "a" [] 10 [] H)).
Defined.

(** ** Further properties of the allocator, the table and the handler *)

Module PyTextRoundTrip.
Import PyText PyTextFacts.

Lemma rev_digits_nonempty n : rev (le_digits (digit_fuel n) n) <> [].
Proof.
pose proof (le_digits_nonempty n) as Hne.
destruct (le_digits (digit_fuel n) n); [done|].
simpl. intros Heq. by apply app_eq_nil in Heq as [_ ?].
Qed.

(** A number below [10 ^ m] has at most [m] digits, and at least one. *)
Lemma digits_length_bound n (m : nat) :
0 <= n < 10 ^ Z.of_nat m -> (length (le_digits (digit_fuel n) n) <= max 1 m)%nat.
Proof.
intros Hn. destruct (Z.eq_dec n 0) as [->|Hne]; [simpl; lia|].
pose proof (le_digits_no_leading_zero (digit_fuel n) n) as Hz.
pose proof (digit_fuel_enough n ltac:(lia)) as Hf.
specialize (Hz ltac:(lia)).
destruct (Nat.le_gt_cases (length (le_digits (digit_fuel n) n)) m) as [|Hgt]; [lia|].
assert (10 ^ Z.of_nat m <= 10 ^ (Z.of_nat (length (le_digits (digit_fuel n) n)) - 1))
  by (apply Z.pow_le_mono_r; lia).
lia.
Qed.

(** [int(str(z)) == z], for the numbers of at most five digits. *)
Lemma int_str z : - 10 ^ 5 < z < 10 ^ 5 -> int (str z) = Some z.
Proof.
intros Hz. unfold int, str. rewrite String.list_ascii_of_string_of_list_ascii.
unfold str_chars, digits_of. destruct (Z.ltb_spec z 0) as [Hneg|Hpos].
- pose proof (digits_length_bound (- z) 5 ltac:(simpl; lia)) as Hlen.
  rewrite int_chars_minus_digits.
  + rewrite fold_left_rev_value, le_digits_value by (apply digit_fuel_enough; lia).
    f_equal. lia.
  + apply rev_digits_nonempty.
  + apply List.Forall_rev, le_digits_are_digits.
  + rewrite length_rev. unfold MAX_STR_DIGITS. lia.
- pose proof (digits_length_bound z 5 ltac:(simpl; lia)) as Hlen.
  rewrite int_chars_digits.
  + by rewrite fold_left_rev_value, le_digits_value by (by apply digit_fuel_enough).
  + apply rev_digits_nonempty.
  + apply List.Forall_rev, le_digits_are_digits.
  + rewrite length_rev. unfold MAX_STR_DIGITS. lia.
Qed.

End PyTextRoundTrip.

Lemma normalized_hash_lower hash jid :
  hash_in_range hash ->
  -1 <= (if hash jid <? 0 then hash jid + sys_maxsize else hash jid) < 2 ^ 63.
Proof.
  intros Hr. specialize (Hr jid). unfold sys_maxsize.
  destruct (Z.ltb_spec (hash jid) 0); lia.
Qed.

Lemma room_code_nonneg h : 0 <= h -> room_code h = h mod 10 ^ 5.
Proof. intros H. unfold room_code. by destruct (Z.leb_spec 0 h); [|lia]. Qed.

Lemma mod_eq_close a b n : 0 < n -> a mod n = b mod n -> - n < a - b < n -> a = b.
Proof.
  intros Hn Hm Hd. pose proof (Z.div_mod a n ltac:(lia)). pose proof (Z.div_mod b n ltac:(lia)).
  assert (a - b = n * (a / n - b / n)) as E by lia.
  assert (a / n - b / n = 0) by nia. lia.
Qed.


(** X2. With a hash in the [Py_hash_t] range and an offset of the retry
    loop (0, 1, 2, ...), the code lies between -1 and [10 ^ 5 - 1], and it
    is -1 exactly for the hash [-2 ^ 63] at offset 0. *)
Theorem generate_room_id_probe_range hash jid offset :
  hash_in_range hash -> 0 <= offset ->
  exists c, generate_room_id hash jid offset = Ok c /\ -1 <= c < 10 ^ 5 /\
    (c = -1 <-> hash jid = - 2 ^ 63 /\ offset = 0).
Proof.
  intros Hr Ho. rewrite generate_room_id_eq. eexists. split; [done|].
  pose proof (normalized_hash_lower hash jid Hr) as Hb.
  specialize (Hr jid). unfold sys_maxsize in *.
  destruct (Z.ltb_spec (hash jid) 0) as [Hneg|Hpos].
  - destruct (Z.eq_dec (hash jid + (2 ^ 63 - 1) + offset) (-1)) as [E|E].
    + rewrite E. split; [done|]. split; [lia | done].
    + rewrite room_code_nonneg by lia.
      pose proof (Z.mod_pos_bound (hash jid + (2 ^ 63 - 1) + offset) (10 ^ 5)). lia.
  - rewrite room_code_nonneg by lia.
    pose proof (Z.mod_pos_bound (hash jid + offset) (10 ^ 5)). lia.
Qed.

Lemma generate_room_id_probe_range_witness :
  hash_in_range sample_hash /\ 0 <= 7 /\
  exists c, generate_room_id sample_hash "room1@example.com" 7 = Ok c /\ -1 <= c < 10 ^ 5 /\
    (c = -1 <-> sample_hash "room1@example.com" = - 2 ^ 63 /\ 7 = 0).
Proof.
  assert (H : 0 <= 7) by lia.
  exact (conj sample_hash_in_range (conj H
    (generate_room_id_probe_range sample_hash "room1@example.com" 7 sample_hash_in_range H))).
Defined.

(** X3. The retry loop probes linearly: the candidate of the next offset
    is the candidate of this offset plus one, modulo [10 ^ 5]. *)
Theorem generate_room_id_next hash jid offset c :
  hash_in_range hash -> 0 <= offset ->
  generate_room_id hash jid offset = Ok c ->
  generate_room_id hash jid (offset + 1) = Ok ((c + 1) mod 10 ^ 5).
Proof.
  intros Hr Ho. rewrite !generate_room_id_eq.
  pose proof (normalized_hash_lower hash jid Hr) as Hb.
  set (base := if hash jid <? 0 then hash jid + sys_maxsize else hash jid) in *.
  intros [= <-]. f_equal. rewrite Z.add_assoc.
  rewrite (room_code_nonneg (base + offset + 1)) by lia.
  destruct (Z.eq_dec (base + offset) (-1)) as [E|E].
  - rewrite E. reflexivity.
  - rewrite (room_code_nonneg (base + offset)) by lia.
    by rewrite Z.add_mod_idemp_l by lia.
Qed.

Lemma generate_room_id_next_witness :
  hash_in_range sample_hash /\ 0 <= 2 /\
  generate_room_id sample_hash "a" 2 = Ok 99 /\
  generate_room_id sample_hash "a" (2 + 1) = Ok ((99 + 1) mod 10 ^ 5).
Proof.
  assert (H1 : 0 <= 2) by lia.
  assert (H2 : generate_room_id sample_hash "a" 2 = Ok 99) by (vm_compute; reflexivity).
  exact (conj sample_hash_in_range (conj H1 (conj H2
    (generate_room_id_next sample_hash "a" 2 99 sample_hash_in_range H1 H2)))).
Defined.

(** X4. The offsets 1 to [10 ^ 5] reach every code from 0 to [10 ^ 5 - 1]
    exactly once: for each such code one and only one of these offsets
    yields it. *)
Theorem generate_room_id_covers_codes hash jid c :
  hash_in_range hash -> 0 <= c < 10 ^ 5 ->
  exists k, 1 <= k <= 10 ^ 5 /\ generate_room_id hash jid k = Ok c /\
    forall k', 1 <= k' <= 10 ^ 5 -> generate_room_id hash jid k' = Ok c -> k' = k.
Proof.
  intros Hr Hc. pose proof (normalized_hash_lower hash jid Hr) as Hb.
  assert (forall k, 1 <= k ->
            generate_room_id hash jid k =
              Ok (((if hash jid <? 0 then hash jid + sys_maxsize else hash jid) + k)
                    mod 10 ^ 5)) as Hgen.
  { intros k Hk. rewrite generate_room_id_eq. by rewrite room_code_nonneg by lia. }
  set (base := if hash jid <? 0 then hash jid + sys_maxsize else hash jid) in *.
  pose proof (Z.mod_pos_bound (c - base - 1) (10 ^ 5) ltac:(lia)) as Hm.
  assert ((base + ((c - base - 1) mod 10 ^ 5 + 1)) mod 10 ^ 5 = c) as Hk.
  { replace (base + ((c - base - 1) mod 10 ^ 5 + 1))
      with ((base + 1) + (c - base - 1) mod 10 ^ 5) by lia.
    rewrite Z.add_mod_idemp_r by lia.
    replace (base + 1 + (c - base - 1)) with c by lia. apply Z.mod_small. lia. }
  exists ((c - base - 1) mod 10 ^ 5 + 1). split_and!; [lia | lia | |].
  - rewrite Hgen by lia. by rewrite Hk.
  - intros k' Hk' Hg. rewrite Hgen in Hg by lia. injection Hg as Hg.
    rewrite <- Hk in Hg.
    assert (base + k' = base + ((c - base - 1) mod 10 ^ 5 + 1)); [|lia].
    apply (mod_eq_close _ _ (10 ^ 5)); [lia | done | lia].
Qed.

Lemma generate_room_id_covers_codes_witness :
  hash_in_range sample_hash /\ 0 <= 0 < 10 ^ 5 /\
  exists k, 1 <= k <= 10 ^ 5 /\ generate_room_id sample_hash "a" k = Ok 0 /\
    forall k', 1 <= k' <= 10 ^ 5 -> generate_room_id sample_hash "a" k' = Ok 0 -> k' = k.
Proof.
  assert (H : 0 <= 0 < 10 ^ 5) by lia.
  exact (conj sample_hash_in_range (conj H
    (generate_room_id_covers_codes sample_hash "a" 0 sample_hash_in_range H))).
Defined.

(** The round trip of [find_by_jid] and [find_by_id] on a table with unique
    bounded codes, with the invariant carried along. *)
Lemma find_by_jid_then_find_by_id hash limit t jid now c t' :
  table_ok t ->
  find_by_jid hash limit jid now t = Ok (c, t') ->
  table_ok t' /\ find_by_id c t' = Ok (Some jid).
Proof.
  intros Hok H. pose proof Hok as [Hu Hb].
  apply find_by_jid_cases in H as [[Hhit ->]|[_ H]].
  - split; [done|].
    apply (SqliteFacts.fetchone_where_Some row_jid row_id) in Hhit
      as (t1 & r & t2 & -> & <- & <- & _).
    assert (- 10 ^ 4 < row_id r < 10 ^ 5) as Hr.
    { unfold stored_ids_bounded in Hb. apply Forall_app in Hb as [_ Hb].
      by apply Forall_cons in Hb as [? _]. }
    rewrite find_by_id_eq by by apply bounded_int64.
    by rewrite TableFacts.fetchone_by_id_of_row.
  - split; [by eapply create_room_table_ok|].
    apply create_room_ok in H as (k & _ & Hg & Hfree & _ & _ & ->).
    apply generate_room_id_bounded in Hg.
    rewrite find_by_id_eq by by apply bounded_int64.
    pose proof (TableFacts.fetchone_by_id_of_row t [] (mk_row c jid now)) as E.
    simpl in E. rewrite E; [done|]. by apply TableFacts.unique_ids_snoc.
Qed.

Lemma find_by_id_Some_occupied room_id t jid :
  find_by_id room_id t = Ok (Some jid) ->
  exists t1 r t2, t = t1 ++ r :: t2 /\ row_id r = room_id /\ row_jid r = jid /\
                  room_id ∉ row_id <$> t1.
Proof.
  unfold find_by_id, lookup_id.
  destruct (Sqlite.bind_int room_id) as [id|] eqn:E; [|done].
  apply SqliteFacts.bind_int_inv in E as [-> _]. cbn.
  destruct (Sqlite.fetchone _) as [j|] eqn:F; [|done]. intros [= ->].
  by apply (SqliteFacts.fetchone_where_Some row_id row_jid) in F.
Qed.

(** X5. What [find_by_id] answers: an identifier it returns is the
    identifier of a stored row with that code; it returns [None] exactly
    when the code fits an INTEGER and no row has it; and it raises exactly
    when the code does not fit, with [OverflowError]. *)
Theorem find_by_id_answers room_id t :
  (forall jid, find_by_id room_id t = Ok (Some jid) ->
     exists r, r ∈ t /\ row_id r = room_id /\ row_jid r = jid) /\
  (find_by_id room_id t = Ok None <-> Sqlite.int64 room_id /\ ~ occupied t room_id) /\
  (forall e, find_by_id room_id t = Raise e <-> e = OverflowError /\ ~ Sqlite.int64 room_id).
Proof.
  split_and!.
  - intros jid H. apply find_by_id_Some_occupied in H as (t1 & r & t2 & -> & ? & ? & _).
    exists r. split; [|done]. apply elem_of_app. right. apply list_elem_of_here.
  - destruct (decide (Sqlite.int64 room_id)) as [Hi|Hi].
    + rewrite find_by_id_free by done. tauto.
    + unfold find_by_id, lookup_id. rewrite SqliteFacts.bind_int_overflow by done.
      split; [done | tauto].
  - intros e. destruct (decide (Sqlite.int64 room_id)) as [Hi|Hi].
    + rewrite find_by_id_eq by done. split; [done | tauto].
    + unfold find_by_id, lookup_id. rewrite SqliteFacts.bind_int_overflow by done.
      cbn. split; [by intros [= <-] | by intros [-> _]].
Qed.

(** A hit returns the stored code and writes nothing; a miss appends one
    row. *)
Lemma find_by_jid_outcome hash limit jid now t c t' :
  find_by_jid hash limit jid now t = Ok (c, t') ->
  ((jid ∈ row_jid <$> t) /\ t' = t /\ exists r, r ∈ t /\ row_jid r = jid /\ row_id r = c) \/
  ((jid ∉ row_jid <$> t) /\ t' = t ++ [mk_row c jid now] /\ ~ occupied t c).
Proof.
  intros H. apply find_by_jid_cases in H as [[Hhit ->]|[Hmiss H]].
  - left. apply (SqliteFacts.fetchone_where_Some row_jid row_id) in Hhit
      as (t1 & r & t2 & -> & Hj & Hi & _).
    assert (r ∈ t1 ++ r :: t2) by (apply elem_of_app; right; apply list_elem_of_here).
    split_and!; [|done|by exists r].
    apply list_elem_of_fmap. by exists r.
  - right. apply SqliteFacts.fetchone_id_None in Hmiss.
    apply create_room_ok in H as (k & _ & _ & Hfree & _ & _ & ->). done.
Qed.

(** X6. What a successful [find_by_jid] does to the table: for an
    identifier that has a row it returns the code of such a row and leaves
    the table as it is; for an identifier without a row it appends exactly
    one row, holding a code no row had, the identifier and the clock
    reading. *)
Theorem find_by_jid_effect hash limit jid now t c t' :
  find_by_jid hash limit jid now t = Ok (c, t') ->
  ((jid ∈ row_jid <$> t) /\ t' = t /\ exists r, r ∈ t /\ row_jid r = jid /\ row_id r = c) \/
  ((jid ∉ row_jid <$> t) /\ t' = t ++ [mk_row c jid now] /\ ~ occupied t c).
Proof. apply find_by_jid_outcome. Qed.

Lemma find_by_jid_effect_witness :
  find_by_jid sample_hash sample_limit "a" 20 [mk_row 97 "x" 1]
    = Ok (98, [mk_row 97 "x" 1; mk_row 98 "a" 20]) /\
  ((("a" ∈ row_jid <$> [mk_row 97 "x" 1]) /\
    [mk_row 97 "x" 1; mk_row 98 "a" 20] = [mk_row 97 "x" 1] /\
    exists r, r ∈ [mk_row 97 "x" 1] /\ row_jid r = "a" /\ row_id r = 98) \/
   (("a" ∉ row_jid <$> [mk_row 97 "x" 1]) /\
    [mk_row 97 "x" 1; mk_row 98 "a" 20] = [mk_row 97 "x" 1] ++ [mk_row 98 "a" 20] /\
    ~ occupied [mk_row 97 "x" 1] 98)).
Proof.
  assert (H : find_by_jid sample_hash sample_limit "a" 20 [mk_row 97 "x" 1]
              = Ok (98, [mk_row 97 "x" 1; mk_row 98 "a" 20])) by (vm_compute; reflexivity).
  exact (conj H (find_by_jid_effect _ _ _ _ _ _ _ H)).
Defined.

(** X7. The round trip from the code: on a table without duplicate
    identifiers, when [find_by_id c] returns [jid], [find_by_jid jid]
    returns [c] and writes nothing. *)
Theorem find_by_id_then_find_by_jid hash limit t c jid now :
  unique_jids t ->
  find_by_id c t = Ok (Some jid) ->
  find_by_jid hash limit jid now t = Ok (c, t).
Proof.
  intros Hu H. apply find_by_id_Some_occupied in H as (t1 & r & t2 & -> & <- & <- & _).
  unfold find_by_jid, Sqlite.select_id_where_jid, Sqlite.fetchone.
  unfold unique_jids in Hu. rewrite fmap_app, fmap_cons in Hu.
  apply NoDup_app in Hu as (_ & Hu & _).
  assert (row_jid r ∉ row_jid <$> t1) as Hfree.
  { intros Hin. apply (Hu _ Hin). apply list_elem_of_here. }
  apply (SqliteFacts.fetchone_where_None row_jid row_id) in Hfree.
  unfold Sqlite.fetchone in Hfree. rewrite filter_app, fmap_app.
  destruct (row_id <$> filter (fun r0 => row_jid r0 = row_jid r) t1); [|done].
  simpl. rewrite filter_cons. by rewrite decide_True by done.
Qed.

Lemma find_by_id_then_find_by_jid_witness :
  unique_jids [mk_row 97 "x" 1; mk_row 98 "a" 20] /\
  find_by_id 98 [mk_row 97 "x" 1; mk_row 98 "a" 20] = Ok (Some "a") /\
  find_by_jid sample_hash sample_limit "a" 30 [mk_row 97 "x" 1; mk_row 98 "a" 20]
    = Ok (98, [mk_row 97 "x" 1; mk_row 98 "a" 20]).
Proof.
  assert (H1 : unique_jids [mk_row 97 "x" 1; mk_row 98 "a" 20]).
  { unfold unique_jids. simpl. apply NoDup_cons. split.
    - rewrite list_elem_of_singleton. discriminate.
    - apply NoDup_singleton. }
  assert (H2 : find_by_id 98 [mk_row 97 "x" 1; mk_row 98 "a" 20] = Ok (Some "a"))
    by reflexivity.
  exact (conj H1 (conj H2 (find_by_id_then_find_by_jid sample_hash sample_limit _ _ _ 30 H1 H2))).
Defined.

(** X8. Two different identifiers never get the same code: in a reachable
    table, after [find_by_jid] returned [c1] for [i1] and any operations
    other than the sweep, the code [find_by_jid] returns for another
    identifier [i2] differs from [c1]. *)
Theorem distinct_jids_distinct_codes hash limit t i1 i2 now1 now2 c1 c2 t1 t2 tr :
  reachable hash limit t ->
  find_by_jid hash limit i1 now1 t = Ok (c1, t1) ->
  sweep_free tr = true ->
  find_by_jid hash limit i2 now2 (run hash limit tr t1) = Ok (c2, t2) ->
  i1 <> i2 -> c1 <> c2.
Proof.
  intros Hreach H1 Htr H2 Hne Heq. subst c2.
  apply reachable_table_ok in Hreach.
  destruct (find_by_jid_then_find_by_id _ _ _ _ _ _ _ Hreach H1) as [Hok1 _].
  pose proof (run_table_ok hash limit tr t1 Hok1) as Hok1'.
  (* the first identifier still resolves to [c1] after the trace *)
  assert (find_by_jid hash limit i1 now1 (run hash limit tr t1)
          = Ok (c1, run hash limit tr t1)) as Hstill.
  { apply find_by_jid_stored in H1.
    destruct (run_appends hash limit tr t1 Htr) as [extra ->].
    unfold find_by_jid, Sqlite.select_id_where_jid in *.
    by rewrite (SqliteFacts.fetchone_where_app row_jid row_id i1 t1 extra c1 H1). }
  destruct (find_by_jid_then_find_by_id _ _ _ _ _ _ _ Hok1' Hstill) as [_ Hback1].
  destruct (find_by_jid_then_find_by_id _ _ _ _ _ _ _ Hok1' H2) as [_ Hback2].
  apply find_by_jid_outcome in H2 as [(_ & -> & _)|(_ & -> & Hfree)].
  - rewrite Hback1 in Hback2. congruence.
  - apply Hfree. apply find_by_id_Some_occupied in Hback1 as (a & r & b & -> & <- & _ & _).
    unfold occupied. rewrite fmap_app, fmap_cons. apply elem_of_app. right.
    apply list_elem_of_here.
Qed.

Lemma distinct_jids_distinct_codes_witness :
  reachable sample_hash sample_limit [] /\
  find_by_jid sample_hash sample_limit "a" 10 [] = Ok (97, [mk_row 97 "a" 10]) /\
  sweep_free [(FindByJid "b", 11)] = true /\
  find_by_jid sample_hash sample_limit "c" 12
      (run sample_hash sample_limit [(FindByJid "b", 11)] [mk_row 97 "a" 10])
    = Ok (99, [mk_row 97 "a" 10; mk_row 98 "b" 11; mk_row 99 "c" 12]) /\
  "a" <> "c" /\ 97 <> 99.
Proof.
  assert (H1 : reachable sample_hash sample_limit []) by (by exists []).
  assert (H2 : find_by_jid sample_hash sample_limit "a" 10 [] = Ok (97, [mk_row 97 "a" 10]))
    by (vm_compute; reflexivity).
  assert (H3 : sweep_free [(FindByJid "b", 11)] = true) by reflexivity.
  assert (H4 : find_by_jid sample_hash sample_limit "c" 12
                 (run sample_hash sample_limit [(FindByJid "b", 11)] [mk_row 97 "a" 10])
               = Ok (99, [mk_row 97 "a" 10; mk_row 98 "b" 11; mk_row 99 "c" 12]))
    by (vm_compute; reflexivity).
  assert (H5 : "a" <> "c") by discriminate.
  exact (conj H1 (conj H2 (conj H3 (conj H4 (conj H5
    (distinct_jids_distinct_codes _ _ _ _ _ _ _ _ _ _ _ _ H1 H2 H3 H4 H5)))))).
Defined.

Lemma step_row_origin hash limit o now t r :
  r ∈ step hash limit o now t ->
  r ∈ t \/
  (row_created_time r = now /\
   (o = FindByJid (row_jid r) \/ exists offset, o = CreateRoom (row_jid r) offset)).
Proof.
  destruct o as [jid|jid offset|room_id|]; simpl.
  - destruct (find_by_jid hash limit jid now t) as [[c t']|] eqn:E; [|by left].
    apply find_by_jid_cases in E as [[_ ->]|[_ E]]; [by left|].
    apply create_room_ok in E as (k & _ & _ & _ & _ & _ & ->).
    rewrite elem_of_app, list_elem_of_singleton. intros [?| ->]; [by left|].
    right. simpl. auto.
  - destruct (create_room hash limit jid offset now t) as [[c t']|] eqn:E; [|by left].
    apply create_room_ok in E as (k & _ & _ & _ & _ & _ & ->).
    rewrite elem_of_app, list_elem_of_singleton. intros [?| ->]; [by left|].
    right. simpl. eauto.
  - by left.
  - destruct (clean now t) as [t'|] eqn:E; [|by left].
    apply clean_ok in E as ->. unfold Sqlite.delete_where_created_before.
    rewrite list_elem_of_filter. intros [_ ?]. by left.
Qed.

Lemma run_row_origin hash limit tr : forall t r,
  r ∈ run hash limit tr t ->
  r ∈ t \/
  exists o now, (o, now) ∈ tr /\ row_created_time r = now /\
    (o = FindByJid (row_jid r) \/ exists offset, o = CreateRoom (row_jid r) offset).
Proof.
  induction tr as [|[o now] tr IH]; intros t r Hr; [by left|].
  cbn [run foldl fst snd] in Hr. fold (run hash limit tr) in Hr.
  apply IH in Hr as [Hr|(o' & now' & Hin & Hrest)].
  - apply step_row_origin in Hr as [?|[Hc Ho]]; [by left|].
    right. exists o, now. split; [apply list_elem_of_here | done].
  - right. exists o', now'. split; [by apply list_elem_of_further | done].
Qed.

(** X9. Rows are written once and never changed: every row of a table
    reached from the empty one was inserted by a [find_by_jid] or
    [create_room] call of the trace for the row's identifier, and its
    [created_time] is the clock reading of that call. *)
Theorem stored_rows_origin hash limit tr r :
  r ∈ run hash limit tr [] ->
  exists o now, (o, now) ∈ tr /\ row_created_time r = now /\
    (o = FindByJid (row_jid r) \/ exists offset, o = CreateRoom (row_jid r) offset).
Proof.
  intros Hr. apply run_row_origin in Hr as [Hr|?]; [|done].
  by apply not_elem_of_nil in Hr.
Qed.

Lemma stored_rows_origin_witness :
  mk_row 98 "b" 11 ∈ run sample_hash sample_limit
                        [(FindByJid "a", 10); (FindByJid "b", 11); (FindByJid "a", 12)] [] /\
  exists o now, (o, now) ∈ [(FindByJid "a", 10); (FindByJid "b", 11); (FindByJid "a", 12)] /\
    row_created_time (mk_row 98 "b" 11) = now /\
    (o = FindByJid (row_jid (mk_row 98 "b" 11)) \/
     exists offset, o = CreateRoom (row_jid (mk_row 98 "b" 11)) offset).
Proof.
  assert (H : mk_row 98 "b" 11 ∈ run sample_hash sample_limit
                [(FindByJid "a", 10); (FindByJid "b", 11); (FindByJid "a", 12)] []).
  { assert (E : run sample_hash sample_limit
                  [(FindByJid "a", 10); (FindByJid "b", 11); (FindByJid "a", 12)] []
                = [mk_row 97 "a" 10; mk_row 98 "b" 11]) by (vm_compute; reflexivity).
    rewrite E. apply list_elem_of_further, list_elem_of_here. }
  exact (conj H (stored_rows_origin sample_hash sample_limit _ _ H)).
Defined.

(** X10. Sweeps compose: after a sweep at [now1], a sweep at a later clock
    reading [now2] gives what the sweep at [now2] alone gives. *)
Theorem clean_then_later_clean now1 now2 t t1 :
  now1 <= now2 ->
  clean now1 t = Ok t1 ->
  clean now2 t1 = clean now2 t.
Proof.
  intros Hle H. apply clean_ok in H as ->. unfold clean.
  destruct (Sqlite.bind_int (now2 - EXPIRE_SECONDS)) as [cutoff|] eqn:E; [|done].
  apply SqliteFacts.bind_int_inv in E as [-> _]. cbn. f_equal.
  unfold Sqlite.delete_where_created_before. rewrite list_filter_filter.
  apply list_filter_iff. intros r. lia.
Qed.

Lemma clean_then_later_clean_witness :
  300000 <= 300001 /\
  clean 300000 [mk_row 1 "a" 40799; mk_row 2 "b" 40800; mk_row 3 "c" 40801]
    = Ok [mk_row 2 "b" 40800; mk_row 3 "c" 40801] /\
  clean 300001 [mk_row 2 "b" 40800; mk_row 3 "c" 40801]
    = clean 300001 [mk_row 1 "a" 40799; mk_row 2 "b" 40800; mk_row 3 "c" 40801].
Proof.
  assert (H1 : 300000 <= 300001) by lia.
  assert (H2 : clean 300000 [mk_row 1 "a" 40799; mk_row 2 "b" 40800; mk_row 3 "c" 40801]
               = Ok [mk_row 2 "b" 40800; mk_row 3 "c" 40801]) by (vm_compute; reflexivity).
  exact (conj H1 (conj H2 (clean_then_later_clean _ _ _ _ H1 H2))).
Defined.

Lemma unique_ids_first_row (t : table) r :
  unique_ids t -> r ∈ t ->
  Sqlite.fetchone (Sqlite.select_jid_where_id (row_id r) t) = Some (row_jid r).
Proof.
  intros Hu Hr. apply list_elem_of_split in Hr as (t1 & t2 & ->).
  by apply TableFacts.fetchone_by_id_of_row.
Qed.

(** X11. After the sweep a stored code resolves exactly when its row has
    not expired: on a table with unique codes, [find_by_id] on the swept
    table returns the row's identifier if
    [created_time >= now - EXPIRE_SECONDS], and [None] otherwise. *)
Theorem find_by_id_after_clean now t t' r :
  unique_ids t -> r ∈ t -> Sqlite.int64 (row_id r) ->
  clean now t = Ok t' ->
  find_by_id (row_id r) t' =
    Ok (if decide (row_created_time r < now - EXPIRE_SECONDS) then None
        else Some (row_jid r)).
Proof.
  intros Hu Hr Hi H. apply clean_ok in H as ->.
  unfold Sqlite.delete_where_created_before.
  rewrite find_by_id_eq by done. f_equal. case_decide as Hexp.
  - apply SqliteFacts.fetchone_jid_None. unfold occupied.
    rewrite list_elem_of_fmap. intros (r' & Hid & Hr').
    apply list_elem_of_filter in Hr' as [Hkeep Hr'].
    assert (r' = r); [|by subst].
    apply list_elem_of_split in Hr as (t1 & t2 & ->).
    unfold unique_ids in Hu. rewrite fmap_app, fmap_cons in Hu.
    apply NoDup_app in Hu as (_ & Hu1 & Hu2). apply NoDup_cons in Hu2 as [Hu2 _].
    apply elem_of_app in Hr' as [Hr'|Hr'].
    + exfalso. apply (Hu1 (row_id r)); [|apply list_elem_of_here].
      apply list_elem_of_fmap. by exists r'.
    + apply elem_of_cons in Hr' as [?|Hr']; [done|].
      exfalso. apply Hu2. apply list_elem_of_fmap. by exists r'.
  - apply unique_ids_first_row.
    + by apply TableFacts.unique_ids_filter.
    + by apply list_elem_of_filter.
Qed.

Lemma find_by_id_after_clean_witness :
  unique_ids [mk_row 1 "a" 40799; mk_row 2 "b" 40800] /\
  mk_row 1 "a" 40799 ∈ [mk_row 1 "a" 40799; mk_row 2 "b" 40800] /\
  Sqlite.int64 (row_id (mk_row 1 "a" 40799)) /\
  clean 300000 [mk_row 1 "a" 40799; mk_row 2 "b" 40800] = Ok [mk_row 2 "b" 40800] /\
  find_by_id (row_id (mk_row 1 "a" 40799)) [mk_row 2 "b" 40800] =
    Ok (if decide (row_created_time (mk_row 1 "a" 40799) < 300000 - EXPIRE_SECONDS)
        then None else Some (row_jid (mk_row 1 "a" 40799))).
Proof.
  assert (H1 : unique_ids [mk_row 1 "a" 40799; mk_row 2 "b" 40800]).
  { unfold unique_ids. simpl. apply NoDup_cons. split.
    - rewrite list_elem_of_singleton. discriminate.
    - apply NoDup_singleton. }
  assert (H2 : mk_row 1 "a" 40799 ∈ [mk_row 1 "a" 40799; mk_row 2 "b" 40800])
    by apply list_elem_of_here.
  assert (H3 : Sqlite.int64 (row_id (mk_row 1 "a" 40799)))
    by (vm_compute; split; discriminate).
  assert (H4 : clean 300000 [mk_row 1 "a" 40799; mk_row 2 "b" 40800]
               = Ok [mk_row 2 "b" 40800]) by (vm_compute; reflexivity).
  exact (conj H1 (conj H2 (conj H3 (conj H4 (find_by_id_after_clean _ _ _ _ H1 H2 H3 H4))))).
Defined.

Lemma filter_filter_keep {A} (P Q : A -> Prop) `{forall x, Decision (P x)}
    `{forall x, Decision (Q x)} (l : list A) :
  (forall x, x ∈ l -> P x -> Q x) -> filter P (filter Q l) = filter P l.
Proof.
  induction l as [|x l IH]; intros HPQ; [done|].
  assert (forall y, y ∈ l -> P y -> Q y) as HPQ' by (intros; apply HPQ; [by right|done]).
  rewrite (filter_cons Q). destruct (decide (Q x)) as [Hq|Hq].
  - rewrite !filter_cons. case_decide; by rewrite IH.
  - rewrite IH by done. rewrite filter_cons, decide_False; [done|].
    intros Hp. apply Hq, HPQ; [by left|done].
Qed.

(** X12. A mapping survives the restart of the process: when [find_by_jid]
    returned [c] for [jid] and no row of [jid] has expired at the restart,
    then after [ConferenceMaps(conn)] and [clean()] on the stored table,
    [find_by_jid jid] returns [c] again and writes nothing, whatever the
    hash function and the recursion limit of the new process are. *)
Theorem restart_keeps_live_mapping hash1 limit1 hash2 limit2 jid now t c t1 now_r t2 now' :
  find_by_jid hash1 limit1 jid now t = Ok (c, t1) ->
  (forall r, r ∈ t1 -> row_jid r = jid -> now_r - EXPIRE_SECONDS <= row_created_time r) ->
  startup now_r (Some t1) = Ok t2 ->
  find_by_jid hash2 limit2 jid now' t2 = Ok (c, t2).
Proof.
  intros H Hlive Hstart. apply find_by_jid_stored in H.
  unfold startup, init_table in Hstart. apply clean_ok in Hstart as ->.
  unfold find_by_jid, Sqlite.select_id_where_jid, Sqlite.delete_where_created_before in *.
  rewrite filter_filter_keep; [by rewrite H|].
  intros r Hr Hj. specialize (Hlive r Hr Hj). lia.
Qed.

Lemma restart_keeps_live_mapping_witness :
  find_by_jid sample_hash sample_limit "b" 40800 [mk_row 1 "a" 40799]
    = Ok (98, [mk_row 1 "a" 40799; mk_row 98 "b" 40800]) /\
  (forall r, r ∈ [mk_row 1 "a" 40799; mk_row 98 "b" 40800] -> row_jid r = "b" ->
             300000 - EXPIRE_SECONDS <= row_created_time r) /\
  startup 300000 (Some [mk_row 1 "a" 40799; mk_row 98 "b" 40800])
    = Ok [mk_row 98 "b" 40800] /\
  find_by_jid (fun _ => 7) 5 "b" 300001 [mk_row 98 "b" 40800]
    = Ok (98, [mk_row 98 "b" 40800]).
Proof.
  assert (H1 : find_by_jid sample_hash sample_limit "b" 40800 [mk_row 1 "a" 40799]
               = Ok (98, [mk_row 1 "a" 40799; mk_row 98 "b" 40800]))
    by (vm_compute; reflexivity).
  assert (H2 : forall r, r ∈ [mk_row 1 "a" 40799; mk_row 98 "b" 40800] -> row_jid r = "b" ->
                         300000 - EXPIRE_SECONDS <= row_created_time r).
  { intros r Hr Hj. apply elem_of_cons in Hr as [->|Hr]; [discriminate|].
    apply list_elem_of_singleton in Hr as ->. vm_compute. discriminate. }
  assert (H3 : startup 300000 (Some [mk_row 1 "a" 40799; mk_row 98 "b" 40800])
               = Ok [mk_row 98 "b" 40800]) by (vm_compute; reflexivity).
  exact (conj H1 (conj H2 (conj H3
    (restart_keeps_live_mapping sample_hash sample_limit (fun _ => 7) 5 _ _ _ _ _ _ _ 300001
       H1 H2 H3)))).
Defined.

(** X13. An expired identifier is allocated anew: when every row of [jid]
    has expired, the swept table holds no row of [jid], and a successful
    [find_by_jid jid] on it appends a fresh row stamped with the new clock
    reading, with a code free in the swept table. *)
Theorem expired_jid_is_allocated_again hash limit jid now t t' now' c t'' :
  (forall r, r ∈ t -> row_jid r = jid -> row_created_time r < now - EXPIRE_SECONDS) ->
  clean now t = Ok t' ->
  find_by_jid hash limit jid now' t' = Ok (c, t'') ->
  t'' = t' ++ [mk_row c jid now'] /\ ~ occupied t' c /\
  forall r, r ∈ t' -> row_jid r <> jid.
Proof.
  intros Hexp Hclean H. apply clean_ok in Hclean as ->.
  assert (forall r, r ∈ Sqlite.delete_where_created_before (now - EXPIRE_SECONDS) t ->
                    row_jid r <> jid) as Hgone.
  { intros r Hr Hj. apply list_elem_of_filter in Hr as [Hkeep Hr].
    apply Hkeep. by apply Hexp. }
  apply find_by_jid_outcome in H as [(Hin & _)|(_ & -> & Hfree)]; [|done].
  apply list_elem_of_fmap in Hin as (r & Hj & Hr). by destruct (Hgone r Hr).
Qed.

Lemma expired_jid_is_allocated_again_witness :
  (forall r, r ∈ [mk_row 97 "a" 40799; mk_row 2 "b" 40800] -> row_jid r = "a" ->
             row_created_time r < 300000 - EXPIRE_SECONDS) /\
  clean 300000 [mk_row 97 "a" 40799; mk_row 2 "b" 40800] = Ok [mk_row 2 "b" 40800] /\
  find_by_jid sample_hash sample_limit "a" 300001 [mk_row 2 "b" 40800]
    = Ok (97, [mk_row 2 "b" 40800; mk_row 97 "a" 300001]) /\
  [mk_row 2 "b" 40800; mk_row 97 "a" 300001] = [mk_row 2 "b" 40800] ++ [mk_row 97 "a" 300001] /\
  ~ occupied [mk_row 2 "b" 40800] 97 /\
  forall r, r ∈ [mk_row 2 "b" 40800] -> row_jid r <> "a".
Proof.
  assert (H1 : forall r, r ∈ [mk_row 97 "a" 40799; mk_row 2 "b" 40800] -> row_jid r = "a" ->
                         row_created_time r < 300000 - EXPIRE_SECONDS).
  { intros r Hr Hj. apply elem_of_cons in Hr as [->|Hr]; [by vm_compute|].
    apply list_elem_of_singleton in Hr as ->. discriminate. }
  assert (H2 : clean 300000 [mk_row 97 "a" 40799; mk_row 2 "b" 40800]
               = Ok [mk_row 2 "b" 40800]) by (vm_compute; reflexivity).
  assert (H3 : find_by_jid sample_hash sample_limit "a" 300001 [mk_row 2 "b" 40800]
               = Ok (97, [mk_row 2 "b" 40800; mk_row 97 "a" 300001]))
    by (vm_compute; reflexivity).
  exact (conj H1 (conj H2 (conj H3
    (expired_jid_is_allocated_again sample_hash sample_limit _ _ _ _ _ _ _ H1 H2 H3)))).
Defined.

(** Why [find_by_jid] raises. *)
Lemma find_by_jid_raise hash limit jid now t e :
  find_by_jid hash limit jid now t = Raise e ->
  (jid ∉ row_jid <$> t) /\
  ((e = OverflowError /\ ~ Sqlite.int64 now) \/
   (e = RecursionError /\
    forall j : nat, (j < limit)%nat -> exists cj,
      generate_room_id hash jid (Z.of_nat j) = Ok cj /\ occupied t cj)).
Proof.
  unfold find_by_jid. destruct (Sqlite.fetchone _) as [id|] eqn:E; [done|].
  intros H. split; [by apply SqliteFacts.fetchone_id_None|].
  apply create_room_raise in H as [?|[-> Hall]]; [by left|]. right. split; [done|].
  intros j Hj. destruct (Hall j Hj) as (cj & Hcj & Hoj). exists cj. by rewrite Z.add_0_l in Hcj.
Qed.

(** X14. Why [find_by_jid] raises: only for an identifier without a row,
    and then either with [OverflowError] because the clock reading does not
    fit an INTEGER, or with [RecursionError] because the candidates of all
    the offsets the call stack admits are occupied. It never raises
    [ValueError]. *)
Theorem find_by_jid_raises hash limit jid now t e :
  find_by_jid hash limit jid now t = Raise e ->
  (jid ∉ row_jid <$> t) /\
  ((e = OverflowError /\ ~ Sqlite.int64 now) \/
   (e = RecursionError /\
    forall j : nat, (j < limit)%nat -> exists cj,
      generate_room_id hash jid (Z.of_nat j) = Ok cj /\ occupied t cj)).
Proof. apply find_by_jid_raise. Qed.

Lemma find_by_jid_raises_witness :
  find_by_jid sample_hash 2 "a" 20 [mk_row 97 "x" 1; mk_row 98 "y" 2] = Raise RecursionError /\
  ("a" ∉ row_jid <$> [mk_row 97 "x" 1; mk_row 98 "y" 2]) /\
  ((RecursionError = OverflowError /\ ~ Sqlite.int64 20) \/
   (RecursionError = RecursionError /\
    forall j : nat, (j < 2)%nat -> exists cj,
      generate_room_id sample_hash "a" (Z.of_nat j) = Ok cj /\
      occupied [mk_row 97 "x" 1; mk_row 98 "y" 2] cj)).
Proof.
  assert (H : find_by_jid sample_hash 2 "a" 20 [mk_row 97 "x" 1; mk_row 98 "y" 2]
              = Raise RecursionError) by (vm_compute; reflexivity).
  exact (conj H (find_by_jid_raises sample_hash 2 "a" 20 _ _ H)).
Defined.

Lemma parse_room_id_Some v room_id :
  parse_room_id v = Some room_id <-> PyText.int v = Some room_id /\ 0 < room_id.
Proof.
  unfold parse_room_id. destruct (PyText.int v) as [z|]; [|by split; [|intros [? _]]].
  destruct (Z.leb_spec z 0); split.
  - done.
  - intros [[= ->] ?]. lia.
  - intros [= ->]. split; [done | lia].
  - by intros [[= ->] _].
Qed.

Lemma parse_room_id_None v :
  parse_room_id v = None <->
  PyText.int v = None \/ exists z, PyText.int v = Some z /\ z <= 0.
Proof.
  unfold parse_room_id. destruct (PyText.int v) as [z|]; [|by split; [left|]].
  destruct (Z.leb_spec z 0); split.
  - intros _. right. by exists z.
  - done.
  - done.
  - intros [?|(z' & [= <-] & ?)]; [done | lia].
Qed.





(** X16. What [do_GET] writes to the table: nothing, except for a
    [conference] parameter whose first value has no row yet; then exactly
    one row is appended, with a code no row had, that identifier and the
    clock reading, and the response is the 200 carrying that code. *)
Theorem do_GET_table_effect hash limit url_path (query : gmap string (list string))
    now t out t' :
  do_GET hash limit url_path query now t = (out, t') ->
  t' = t \/
  exists jid rest c,
    url_path = "/conferenceMapper" /\ query !! "conference" = Some (jid :: rest) /\
    (jid ∉ row_jid <$> t) /\ ~ occupied t c /\ t' = t ++ [mk_row c jid now] /\
    out = Ok (JsonResponse 200
                [("message", JString "Successfully retrieved conference mapping");
                 ("id", JInt c); ("conference", JString jid)]).
Proof.
  unfold do_GET. case_decide; [intros [= _ <-]; by left|].
  case_decide as Hp; [|intros [= _ <-]; by left].
  destruct (query !! "conference") as [[|jid rest]|] eqn:Hc.
  2:{ destruct (find_by_jid hash limit jid now t) as [[c t'']|] eqn:Hf;
        [|intros [= _ <-]; by left].
      intros [= <- <-].
      apply find_by_jid_outcome in Hf as [(_ & -> & _)|(Hnew & -> & Hfree)]; [by left|].
      right. exists jid, rest, c. done. }
  all: destruct (query !! "id") as [[|v rest']|]; try (intros [= _ <-]; by left).
  all: destruct (parse_room_id v) as [room_id|]; [|intros [= _ <-]; by left].
  all: destruct (find_by_id room_id t) as [[jid'|]|e0]; intros [= _ <-]; by left.
Qed.

Lemma do_GET_table_effect_witness :
  do_GET sample_hash sample_limit "/conferenceMapper"
      {[ "conference" := ["a"] ]} 20 [mk_row 97 "x" 1]
    = (Ok (JsonResponse 200
             [("message", JString "Successfully retrieved conference mapping");
              ("id", JInt 98); ("conference", JString "a")]),
       [mk_row 97 "x" 1; mk_row 98 "a" 20]) /\
  ([mk_row 97 "x" 1; mk_row 98 "a" 20] = [mk_row 97 "x" 1] \/
   exists jid rest c,
     "/conferenceMapper" = "/conferenceMapper" /\
     ({[ "conference" := ["a"] ]} : gmap string (list string)) !! "conference"
       = Some (jid :: rest) /\
     (jid ∉ row_jid <$> [mk_row 97 "x" 1]) /\ ~ occupied [mk_row 97 "x" 1] c /\
     [mk_row 97 "x" 1; mk_row 98 "a" 20] = [mk_row 97 "x" 1] ++ [mk_row c jid 20] /\
     Ok (JsonResponse 200
           [("message", JString "Successfully retrieved conference mapping");
            ("id", JInt 98); ("conference", JString "a")])
     = Ok (JsonResponse 200
             [("message", JString "Successfully retrieved conference mapping");
              ("id", JInt c); ("conference", JString jid)])).
Proof.
  assert (H : do_GET sample_hash sample_limit "/conferenceMapper"
                {[ "conference" := ["a"] ]} 20 [mk_row 97 "x" 1]
              = (Ok (JsonResponse 200
                       [("message", JString "Successfully retrieved conference mapping");
                        ("id", JInt 98); ("conference", JString "a")]),
                 [mk_row 97 "x" 1; mk_row 98 "a" 20])) by (vm_compute; reflexivity).
  exact (conj H (do_GET_table_effect _ _ _ _ _ _ _ _ H)).
Defined.

Example int_ascii_examples :
  PyText.int (String (ascii_of_nat 28) "12") = None /\
  PyText.int (String (ascii_of_nat 11) "12 ") = Some 12 /\
  PyText.int "0012" = Some 12 /\
  PyText.int "- 12" = None /\
  is_Some (PyText.int (String.string_of_list_ascii (repeat "1"%char 4300))) /\
  PyText.int (String.string_of_list_ascii (repeat "1"%char 4301)) = None /\
  PyText.is_ascii "12_000" = true /\
  PyText.is_ascii (String (ascii_of_nat 194) (String (ascii_of_nat 160) "12")) = false.
Proof. vm_compute. split_and!; eauto. Qed.

Example do_GET_target_examples :
  do_GET_target sample_urlparse sample_parse_qs sample_hash sample_limit
      "/conferenceMapper?conference=room1@example.com" 1700000000 []
    = (Ok (JsonResponse 200
             [("message", JString "Successfully retrieved conference mapping");
              ("id", JInt 41613); ("conference", JString "room1@example.com")]),
       [mk_row 41613 "room1@example.com" 1700000000]) /\
  do_GET_target sample_urlparse sample_parse_qs sample_hash sample_limit
      "/conferenceMapper" 5 []
    = (Ok (JsonResponse 400 [("message", JString "No conference or ID provided.")]), []) /\
  do_GET_target (fun _ => Raise ValueError) sample_parse_qs sample_hash sample_limit
      "http://[::1/conferenceMapper?id=1" 5 []
    = (Raise ValueError, []).
Proof. vm_compute. repeat split. Qed.

(** X17. The [id] branch for an [id] value that is ASCII text, the query
    having no usable [conference] parameter: a value that [int()] rejects
    or that is not positive gets 400 "Invalid ID"; a positive code up to
    [2 ^ 63 - 1] that no row has gets 404 "Room ID not found"; a positive
    code of a stored row gets 200 with that code and the identifier of a
    row holding it. The table is left as it is. *)
Theorem do_GET_id_cases hash limit (query : gmap string (list string)) v rest now t :
  query !! "conference" = None \/ query !! "conference" = Some [] ->
  query !! "id" = Some (v :: rest) ->
  PyText.is_ascii v = true ->
  (PyText.int v = None \/ (exists z, PyText.int v = Some z /\ z <= 0) ->
   do_GET hash limit "/conferenceMapper" query now t
     = (Ok (JsonResponse 400 [("message", JString "Invalid ID")]), t)) /\
  (forall room_id,
     PyText.int v = Some room_id -> 0 < room_id <= Sqlite.INT64_MAX ->
     ~ occupied t room_id ->
     do_GET hash limit "/conferenceMapper" query now t
       = (Ok (JsonResponse 404 [("message", JString "Room ID not found")]), t)) /\
  (forall room_id,
     PyText.int v = Some room_id -> 0 < room_id <= Sqlite.INT64_MAX ->
     occupied t room_id ->
     exists r, r ∈ t /\ row_id r = room_id /\
       do_GET hash limit "/conferenceMapper" query now t
         = (Ok (JsonResponse 200
                  [("message", JString "Successfully retrieved conference mapping");
                   ("id", JInt room_id); ("conference", JString (row_jid r))]), t)).
Proof.
  intros Hconf Hid _. rewrite (do_GET_id_branch hash limit query v rest now t Hconf Hid).
  assert (forall z, 0 < z <= Sqlite.INT64_MAX -> Sqlite.int64 z) as Hrange.
  { intros z Hz. unfold Sqlite.int64, Sqlite.INT64_MIN, Sqlite.INT64_MAX in *. lia. }
  split_and!.
  - intros Hbad. by apply parse_room_id_None in Hbad as ->.
  - intros room_id Hv Hpos Hfree.
    assert (parse_room_id v = Some room_id) as -> by (apply parse_room_id_Some; split; [done|lia]).
    rewrite decide_True by auto.
    by apply SqliteFacts.fetchone_jid_None in Hfree as ->.
  - intros room_id Hv Hpos Hocc.
    assert (parse_room_id v = Some room_id) as -> by (apply parse_room_id_Some; split; [done|lia]).
    rewrite decide_True by auto.
    destruct (Sqlite.fetchone _) as [jid|] eqn:E;
      [|by apply SqliteFacts.fetchone_jid_None in E].
    apply (SqliteFacts.fetchone_where_Some row_id row_jid) in E
      as (t1 & r & t2 & -> & Hr & <- & _).
    exists r. split_and!; [|done|done].
    apply elem_of_app. right. apply list_elem_of_here.
Qed.

Lemma do_GET_id_cases_witness :
  (({[ "id" := ["97"] ]} : gmap string (list string)) !! "conference" = None \/
   ({[ "id" := ["97"] ]} : gmap string (list string)) !! "conference" = Some []) /\
  ({[ "id" := ["97"] ]} : gmap string (list string)) !! "id" = Some ("97" :: []) /\
  PyText.is_ascii "97" = true /\
  (PyText.int "97" = None \/ (exists z, PyText.int "97" = Some z /\ z <= 0) ->
   do_GET sample_hash sample_limit "/conferenceMapper" {[ "id" := ["97"] ]} 5 [mk_row 97 "a" 1]
     = (Ok (JsonResponse 400 [("message", JString "Invalid ID")]), [mk_row 97 "a" 1])) /\
  (forall room_id,
     PyText.int "97" = Some room_id -> 0 < room_id <= Sqlite.INT64_MAX ->
     ~ occupied [mk_row 97 "a" 1] room_id ->
     do_GET sample_hash sample_limit "/conferenceMapper" {[ "id" := ["97"] ]} 5 [mk_row 97 "a" 1]
       = (Ok (JsonResponse 404 [("message", JString "Room ID not found")]),
          [mk_row 97 "a" 1])) /\
  (forall room_id,
     PyText.int "97" = Some room_id -> 0 < room_id <= Sqlite.INT64_MAX ->
     occupied [mk_row 97 "a" 1] room_id ->
     exists r, r ∈ [mk_row 97 "a" 1] /\ row_id r = room_id /\
       do_GET sample_hash sample_limit "/conferenceMapper" {[ "id" := ["97"] ]} 5
           [mk_row 97 "a" 1]
         = (Ok (JsonResponse 200
                  [("message", JString "Successfully retrieved conference mapping");
                   ("id", JInt room_id); ("conference", JString (row_jid r))]),
            [mk_row 97 "a" 1])).
Proof.
  assert (H1 : ({[ "id" := ["97"] ]} : gmap string (list string)) !! "conference" = None \/
               ({[ "id" := ["97"] ]} : gmap string (list string)) !! "conference" = Some [])
    by (left; reflexivity).
  assert (H2 : ({[ "id" := ["97"] ]} : gmap string (list string)) !! "id"
               = Some ("97" :: [])) by reflexivity.
  assert (H3 : PyText.is_ascii "97" = true) by reflexivity.
  exact (conj H1 (conj H2 (conj H3
    (do_GET_id_cases sample_hash sample_limit _ "97" [] 5 [mk_row 97 "a" 1] H1 H2 H3)))).
Defined.

(** X18. The round trip through the handler: after a request with
    [conference=jid] was answered 200 with the code [c], a request with
    [id=str(c)] on the resulting table is answered 200 with [c] and [jid]
    when [c] is positive, and 400 "Invalid ID" when [c] is 0 or -1. *)
Theorem do_GET_round_trip hash limit (query : gmap string (list string))
    jid rest now t c t' now' :
  reachable hash limit t ->
  query !! "conference" = Some (jid :: rest) ->
  do_GET hash limit "/conferenceMapper" query now t
    = (Ok (JsonResponse 200
             [("message", JString "Successfully retrieved conference mapping");
              ("id", JInt c); ("conference", JString jid)]), t') ->
  do_GET hash limit "/conferenceMapper" {[ "id" := [PyText.str c] ]} now' t'
    = if decide (0 < c)
      then (Ok (JsonResponse 200
                  [("message", JString "Successfully retrieved conference mapping");
                   ("id", JInt c); ("conference", JString jid)]), t')
      else (Ok (JsonResponse 400 [("message", JString "Invalid ID")]), t').
Proof.
  intros Hreach Hq. unfold do_GET at 1.
  rewrite decide_False by done. rewrite decide_True by done. rewrite Hq.
  destruct (find_by_jid hash limit jid now t) as [[c0 t0]|] eqn:Hf; [|done].
  intros [= -> ->]. apply reachable_table_ok in Hreach.
  destruct (find_by_jid_then_find_by_id _ _ _ _ _ _ _ Hreach Hf) as [Hok' Hback].
  assert (- 10 ^ 5 < c < 10 ^ 5) as Hc.
  { destruct (find_by_id_Some_occupied _ _ _ Hback) as (t1 & r & t2 & E & Hr & _ & _).
    destruct Hok' as [_ Hb]. unfold stored_ids_bounded in Hb. rewrite E in Hb.
    apply Forall_app in Hb as [_ Hb]. apply Forall_cons in Hb as [Hb _]. lia. }
  rewrite (do_GET_id_branch hash limit _ (PyText.str c) [] now' t');
    [|left; reflexivity|reflexivity].
  unfold parse_room_id. rewrite PyTextRoundTrip.int_str by done.
  destruct (Z.leb_spec c 0) as [Hle|Hgt].
  - destruct (decide (0 < c)) as [Hd|Hd]; [|done]. lia.
  - destruct (decide (0 < c)) as [Hd|Hd]; [|lia].
    assert (Sqlite.int64 c) as Hi.
    { destruct (decide (Sqlite.int64 c)) as [|Hn]; [done|].
      unfold find_by_id, lookup_id in Hback.
      by rewrite SqliteFacts.bind_int_overflow in Hback by done. }
    rewrite decide_True by done. rewrite find_by_id_eq in Hback by done.
    injection Hback as ->. done.
Qed.

Lemma do_GET_round_trip_witness :
  reachable sample_hash sample_limit [] /\
  ({[ "conference" := ["room1@example.com"] ]} : gmap string (list string)) !! "conference"
    = Some ("room1@example.com" :: []) /\
  do_GET sample_hash sample_limit "/conferenceMapper"
      {[ "conference" := ["room1@example.com"] ]} 1700000000 []
    = (Ok (JsonResponse 200
             [("message", JString "Successfully retrieved conference mapping");
              ("id", JInt 41613); ("conference", JString "room1@example.com")]),
       [mk_row 41613 "room1@example.com" 1700000000]) /\
  do_GET sample_hash sample_limit "/conferenceMapper" {[ "id" := [PyText.str 41613] ]}
      1700000001 [mk_row 41613 "room1@example.com" 1700000000]
    = if decide (0 < 41613)
      then (Ok (JsonResponse 200
                  [("message", JString "Successfully retrieved conference mapping");
                   ("id", JInt 41613); ("conference", JString "room1@example.com")]),
            [mk_row 41613 "room1@example.com" 1700000000])
      else (Ok (JsonResponse 400 [("message", JString "Invalid ID")]),
            [mk_row 41613 "room1@example.com" 1700000000]).
Proof.
  assert (H1 : reachable sample_hash sample_limit []) by (by exists []).
  assert (H2 : ({[ "conference" := ["room1@example.com"] ]} : gmap string (list string))
                 !! "conference" = Some ("room1@example.com" :: [])) by reflexivity.
  assert (H3 : do_GET sample_hash sample_limit "/conferenceMapper"
                 {[ "conference" := ["room1@example.com"] ]} 1700000000 []
               = (Ok (JsonResponse 200
                        [("message", JString "Successfully retrieved conference mapping");
                         ("id", JInt 41613); ("conference", JString "room1@example.com")]),
                  [mk_row 41613 "room1@example.com" 1700000000]))
    by (vm_compute; reflexivity).
  exact (conj H1 (conj H2 (conj H3
    (do_GET_round_trip sample_hash sample_limit _ _ _ _ _ _ _ 1700000001 H1 H2 H3)))).
Defined.

(** X20. When [do_GET] answers 500, the request had a [conference]
    parameter whose first value has no row, the body names that identifier
    with the message "ID allocation failed", the table is unchanged, and
    the cause is a clock reading that does not fit an INTEGER or a run of
    occupied candidates as long as the call stack admits. *)
Theorem do_GET_allocation_failed hash limit url_path (query : gmap string (list string))
    now t data t' :
  do_GET hash limit url_path query now t = (Ok (JsonResponse 500 data), t') ->
  t' = t /\
  exists jid rest,
    url_path = "/conferenceMapper" /\ query !! "conference" = Some (jid :: rest) /\
    data = [("message", JString "ID allocation failed"); ("conference", JString jid)] /\
    (jid ∉ row_jid <$> t) /\
    (~ Sqlite.int64 now \/
     forall j : nat, (j < limit)%nat -> exists cj,
       generate_room_id hash jid (Z.of_nat j) = Ok cj /\ occupied t cj).
Proof.
  unfold do_GET. case_decide; [done|]. case_decide as Hp; [|done].
  destruct (query !! "conference") as [[|jid rest]|] eqn:Hc.
  2:{ destruct (find_by_jid hash limit jid now t) as [[c t'']|e] eqn:Hf; [done|].
      intros [= <- <-]. split; [done|]. exists jid, rest.
      apply find_by_jid_raise in Hf as [Hnew Hwhy].
      split_and!; [done..|]. destruct Hwhy as [[_ ?]|[_ ?]]; auto. }
  all: destruct (query !! "id") as [[|v rest']|]; try done.
  all: destruct (parse_room_id v) as [room_id|]; [|done].
  all: by destruct (find_by_id room_id t) as [[jid'|]|e0].
Qed.

Lemma do_GET_allocation_failed_witness :
  do_GET sample_hash 2 "/conferenceMapper" {[ "conference" := ["a"] ]} 20
      [mk_row 97 "x" 1; mk_row 98 "y" 2]
    = (Ok (JsonResponse 500 [("message", JString "ID allocation failed");
                             ("conference", JString "a")]),
       [mk_row 97 "x" 1; mk_row 98 "y" 2]) /\
  [mk_row 97 "x" 1; mk_row 98 "y" 2] = [mk_row 97 "x" 1; mk_row 98 "y" 2] /\
  exists jid rest,
    "/conferenceMapper" = "/conferenceMapper" /\
    ({[ "conference" := ["a"] ]} : gmap string (list string)) !! "conference"
      = Some (jid :: rest) /\
    [("message", JString "ID allocation failed"); ("conference", JString "a")]
      = [("message", JString "ID allocation failed"); ("conference", JString jid)] /\
    (jid ∉ row_jid <$> [mk_row 97 "x" 1; mk_row 98 "y" 2]) /\
    (~ Sqlite.int64 20 \/
     forall j : nat, (j < 2)%nat -> exists cj,
       generate_room_id sample_hash jid (Z.of_nat j) = Ok cj /\
       occupied [mk_row 97 "x" 1; mk_row 98 "y" 2] cj).
Proof.
  assert (H : do_GET sample_hash 2 "/conferenceMapper" {[ "conference" := ["a"] ]} 20
                [mk_row 97 "x" 1; mk_row 98 "y" 2]
              = (Ok (JsonResponse 500 [("message", JString "ID allocation failed");
                                       ("conference", JString "a")]),
                 [mk_row 97 "x" 1; mk_row 98 "y" 2])) by (vm_compute; reflexivity).
  exact (conj H (do_GET_allocation_failed _ _ _ _ _ _ _ _ H)).
Defined.

Module JsonFacts.
Import Json.
















End JsonFacts.


Example dumps_examples :
  Json.dumps [("message", JString "Phone numbers available.");
              ("numbers", JNumbers PHONE_NUMBERS);
              ("numbersEnabled", JBool true)]
    = requote "{'message': 'Phone numbers available.', 'numbers': {'DE': ['+49123456789']}, 'numbersEnabled': true}" /\
  Json.dumps [("message", JString "Successfully retrieved conference mapping");
              ("id", JInt 41613); ("conference", JString "room1@example.com")]
    = requote "{'message': 'Successfully retrieved conference mapping', 'id': 41613, 'conference': 'room1@example.com'}" /\
  Json.dumps [("conference",
               JString (String.string_of_list_ascii
                          (map ascii_of_nat [10; 195; 169; 226; 130; 172;
                                             240; 159; 152; 128; 120; 127]%nat)))]
    = requote "{'conference': '\n\u00e9\u20ac\ud83d\ude00x\u007f'}" /\
  Json.dumps [] = "{}".
Proof. vm_compute. repeat split. Qed.
